(** * mlx_lm/utils.py: cutoff sampling, the generation loop, the driver and
      the loader, as a shallow embedding.

    Conventions of the embedding.
    - A Python call either returns a value or raises: [outcome] has [Ok] and
      [Raise]; its third constructor [OutOfFuel] is the model's own marker of
      a loop that was cut short, and is proved never to be produced.
    - The entries of [np_logits] and the cutoff are rationals, as every
      finite floating-point number is, and they are compared exactly. What
      floating-point arithmetic computes for [1 - (p / t0)], with its
      rounding, is the field [rel_drop] of the interface [MxLib]; NaN and
      the infinities are not values of the model.
    - [mx.softmax] and [mx.random.categorical] belong to the mlx library, not
      to this repository: they are fields of [MxLib] too, together with the
      facts about them the development relies on.
    - [time.monotonic_ns()] is an input: [sample] receives the value that is
      handed to [mx.random.seed]. *)

From Stdlib Require Import String ZArith QArith Bool Lia Lqa Arith PeanoNat List.
From Stdlib Require Import Permutation Sorted.
Import ListNotations.

Set Implicit Arguments.

(** ** Exceptions and the result of a call *)

Inductive exn : Type :=
| IndexError
| AttributeError
| KeyError
| TypeError
| ValueError (msg : string)
| FileNotFoundError (msg : string)
| NotADirectoryError (msg : string)
| JSONDecodeError (msg : string)
| ExternalError (msg : string).

Inductive outcome (A : Type) : Type :=
| Ok (a : A)
| Raise (e : exn)
| OutOfFuel.

Arguments Ok {A} a.
Arguments Raise {A} e.
Arguments OutOfFuel {A}.

Definition bind {A B : Type} (c : outcome A) (k : A -> outcome B) : outcome B :=
  match c with
  | Ok a => k a
  | Raise e => Raise e
  | OutOfFuel => OutOfFuel
  end.

Declare Scope py_scope.
Delimit Scope py_scope with py.
Notation "x <- c ;; k" := (bind c (fun x => k))
  (at level 61, c at next level, right associativity) : py_scope.
Notation "' pat <- c ;; k" := (bind c (fun x => match x with pat => k end))
  (at level 61, pat pattern, c at next level, right associativity) : py_scope.
Open Scope py_scope.

(** [l[i]] for a non-negative [i]: IndexError out of range. *)
Definition index {A : Type} (l : list A) (i : nat) : outcome A :=
  match nth_error l i with
  | Some a => Ok a
  | None => Raise IndexError
  end.

(** [x < y] on scores. *)
Definition Qltb (x y : Q) : bool := negb (Qle_bool y x).

(** ** The mlx library and floating-point arithmetic, as far as [sample]
    uses them

    [rel_drop p t0] is the number that [1 - (p / t0)] evaluates to. Rounding
    is monotone and leaves 0 and 1 fixed, so the computed drop of a score
    that is not negative is at most 1, and the computed drop of a score that
    does not exceed [t0] is not negative. *)

Class MxLib : Type := {
  softmax : list Q -> list Q;
  categorical : Z -> list Q -> nat;
  rel_drop : Q -> Q -> Q;
  softmax_length : forall l, length (softmax l) = length l;
  softmax_nonneg : forall l x, In x (softmax l) -> 0 <= x;
  rel_drop_le_1 : forall p t0, 0 <= p -> 0 <= t0 -> rel_drop p t0 <= 1;
  rel_drop_ge_0 : forall p t0, 0 <= p -> p <= t0 -> 0 <= rel_drop p t0;
  categorical_lt : forall seed l, l <> [] -> (categorical seed l < length l)%nat
}.

(** ** np.argsort *)

(** Ascending order of the indices by their score; equal scores keep the
    order of their indices. *)
Fixpoint insert_index (p : list Q) (i : nat) (l : list nat) : list nat :=
  match l with
  | [] => [i]
  | k :: l' =>
      if Qle_bool (nth i p 0) (nth k p 0) then i :: k :: l'
      else k :: insert_index p i l'
  end.

Definition argsort (p : list Q) : list nat :=
  fold_right (insert_index p) [] (seq 0 (length p)).

(** ** sample (utils.py, lines 84-105) *)

Section Sample.

Context {L : MxLib}.
Variable cutoff : Q.

Section Ranked.

Variable np_logits : list Q.
Variable sorted_indices : list nat.
Variable t0 : Q.

(** [np_logits[sorted_indices[j]]] *)
Definition ranked (j : nat) : outcome Q :=
  k <- index sorted_indices j ;;
  index np_logits k.

(** The condition of the while loop, its left operand first:
    [1 - (np_logits[sorted_indices[j]] / t0) < cutoff and j < len(np_logits)]. *)
Definition widen_cond (j : nat) : outcome bool :=
  p <- ranked j ;;
  Ok (Qltb (rel_drop p t0) cutoff && (j <? length np_logits)%nat).

(** [while cond: j += 1] *)
Fixpoint widen (fuel j : nat) : outcome nat :=
  match fuel with
  | O => OutOfFuel
  | S fuel' =>
      b <- widen_cond j ;;
      if b then widen fuel' (S j) else Ok j
  end.

(** [for i in range(0,j): accepted_logits.append(float(np_logits[sorted_indices[j]]))] *)
Definition accept (j : nat) : outcome (list Q) :=
  fold_left
    (fun acc (_ : nat) =>
       a <- acc ;;
       p <- ranked j ;;
       Ok (a ++ [p]))
    (seq 0 j) (Ok []).

End Ranked.

Definition sample (seed : Z) (logits : list Q) : outcome (Q * nat) :=
  let np_logits := softmax logits in
  let sorted_indices := rev (argsort np_logits) in
  let j := 1%nat in
  k0 <- index sorted_indices 0 ;;
  t0 <- index np_logits k0 ;;
  j <- widen np_logits sorted_indices t0 (S (length np_logits)) j ;;
  accepted_logits <- accept np_logits sorted_indices j ;;
  let idx := categorical seed accepted_logits in
  c <- index sorted_indices idx ;;
  Ok (t0, c).

End Sample.

(** ** generate_step (utils.py, lines 69-113) *)

(** What the driver's loop variable can be bound to: the [mx.array] of token
    ids a step produces, or the tuple [(t0, y)] that [generate_step] yields. *)
Inductive pyobj : Type :=
| PyArray (a : list Z)
| PyTuple (t0 : Q) (y : list Z).

(** What the generation loop does to its collaborators, in order. *)
Inductive event (Cache : Type) : Type :=
| ModelCall (input : list Z) (cache : option Cache)
| SampleCall (cutoff : Q) (logits : list Q).

Arguments SampleCall {Cache} cutoff logits.

Section Generation.

Context {L : MxLib}.
Variable Cache : Type.

(** [model(y[None], cache=cache)]: the logits of every input position and
    the new cache, or a failure of the model. *)
Variable model : list Z -> option Cache -> outcome (list (list Q) * Cache).

(** The successive readings of [time.monotonic_ns()]. *)
Variable clock : nat -> Z.

(** The local variables of a suspended [generate_step]. *)
Record generator : Type := {
  gen_cutoff : Q;
  gen_y : list Z;
  gen_cache : option Cache;
  gen_reads : nat
}.

Definition default_cutoff : Q := 7.

(** Calling [generate_step(prompt, model, cutoff)] runs nothing yet. *)
Definition generate_step (prompt : list Z) (cutoff : option Q) : generator :=
  {| gen_cutoff := match cutoff with Some c => c | None => default_cutoff end;
     gen_y := prompt;
     gen_cache := None;
     gen_reads := 0 |}.

(** [logits[:, -1, :]]; on an empty axis mlx raises a ValueError, whose text
    is not modelled. *)
Definition last_position (logits : list (list Q)) : outcome (list Q) :=
  match rev logits with
  | row :: _ => Ok row
  | [] => Raise (ValueError "index -1 is out of bounds for an axis of size 0")
  end.

(** One turn of [while True], up to its [yield]: the events of the turn and
    either the yielded tuple with the resumed generator, or the failure. *)
Definition next (g : generator)
  : list (event Cache) * outcome ((Q * list Z) * generator) :=
  let call := ModelCall (gen_y g) (gen_cache g) in
  match model (gen_y g) (gen_cache g) with
  | Ok (logits, cache) =>
      match last_position logits with
      | Ok logits =>
          let seed := clock (S (gen_reads g)) in
          ([call; SampleCall (gen_cutoff g) logits],
           '(t0, c) <- sample (gen_cutoff g) seed logits ;;
           Ok ((t0, [Z.of_nat c]),
               {| gen_cutoff := gen_cutoff g;
                  gen_y := [Z.of_nat c];
                  gen_cache := Some cache;
                  gen_reads := 2 + gen_reads g |}))
      | Raise e => ([call], Raise e)
      | OutOfFuel => ([call], OutOfFuel)
      end
  | Raise e => ([call], Raise e)
  | OutOfFuel => ([call], OutOfFuel)
  end.

(** The first [n] items of the generator: the events, and the items with
    the generator left behind. *)
Fixpoint take (n : nat) (g : generator)
  : list (event Cache) * outcome (list (Q * list Z) * generator) :=
  match n with
  | O => ([], Ok ([], g))
  | S n' =>
      match next g with
      | (ev, Ok (item, g')) =>
          let '(ev', r) := take n' g' in
          (ev ++ ev', '(items, g'') <- r ;; Ok (item :: items, g''))
      | (ev, Raise e) => (ev, Raise e)
      | (ev, OutOfFuel) => (ev, OutOfFuel)
      end
  end.

(** The inputs of the model calls among the events. *)
Fixpoint model_inputs (evs : list (event Cache)) : list (list Z) :=
  match evs with
  | [] => []
  | ModelCall input _ :: evs' => input :: model_inputs evs'
  | SampleCall _ _ :: evs' => model_inputs evs'
  end.

(** The cutoffs of the sampler calls among the events. *)
Fixpoint sample_cutoffs (evs : list (event Cache)) : list Q :=
  match evs with
  | [] => []
  | ModelCall _ _ :: evs' => sample_cutoffs evs'
  | SampleCall c _ :: evs' => c :: sample_cutoffs evs'
  end.

(** ** generate (utils.py, lines 116-153) *)

Record tokenizer : Type := {
  encode : string -> list Z;
  decode : list Z -> string;
  eos_token_id : Z
}.

(** [bool(token == eos)] *)
Definition py_eq (token : pyobj) (eos : Z) : outcome bool :=
  match token with
  | PyArray [c] => Ok (c =? eos)%Z
  | PyArray _ => Raise (ValueError "The truth value of an array with more than one element is ambiguous.")
  | PyTuple _ _ => Ok false
  end.

(** [token.item()] *)
Definition item (token : pyobj) : outcome Z :=
  match token with
  | PyArray [c] => Ok c
  | PyArray _ => Raise (ValueError "item can only be called on arrays of size 1.")
  | PyTuple _ _ => Raise AttributeError
  end.

(** [s[skip:]] *)
Definition slice_from (skip : nat) (s : string) : string :=
  substring skip (String.length s - skip) s.

(** The variables of [generate] that its loop updates, and standard output. *)
Record driver : Type := {
  tokens : list Z;
  skip : nat;
  stdout : string
}.

Section Loop.

Variable tok : tokenizer.
Variable verbose : bool.

(** The body of the [for], after the [break] test. *)
Definition body (token : pyobj) (d : driver) : outcome driver :=
  t <- item token ;;
  let tokens := tokens d ++ [t] in
  if verbose then
    let s := decode tok tokens in
    Ok {| tokens := tokens;
          skip := String.length s;
          stdout := (stdout d ++ slice_from (skip d) s)%string |}
  else
    Ok {| tokens := tokens; skip := skip d; stdout := stdout d |}.

(** [for token, _ in zip(generate_step(...), range(max_tokens))], with
    [remaining] numbers left in the range. [zip] advances the generator
    first and the range second, and the pair [(item, number)] it builds
    is unpacked into [token, _]: [token] is the generator's item. *)
Fixpoint for_loop (remaining : nat) (g : generator) (d : driver)
  : list (event Cache) * outcome driver :=
  match next g with
  | (ev, Ok ((t0, y), g')) =>
      match remaining with
      | O => (ev, Ok d)
      | S remaining' =>
          let token := PyTuple t0 y in
          match py_eq token (eos_token_id tok) with
          | Ok true => (ev, Ok d)
          | Ok false =>
              match body token d with
              | Ok d' =>
                  let '(ev', r) := for_loop remaining' g' d' in
                  (ev ++ ev', r)
              | Raise e => (ev, Raise e)
              | OutOfFuel => (ev, OutOfFuel)
              end
          | Raise e => (ev, Raise e)
          | OutOfFuel => (ev, OutOfFuel)
          end
      end
  | (ev, Raise e) => (ev, Raise e)
  | (ev, OutOfFuel) => (ev, OutOfFuel)
  end.

End Loop.

Definition default_temp : Q := 0.
Definition default_max_tokens : nat := 100.

Definition newline : string := String (Ascii.ascii_of_nat 10) EmptyString.

(** The events, and the returned text with what was printed. *)
Definition generate (tok : tokenizer) (prompt : string)
    (temp : option Q) (max_tokens : option nat) (verbose : bool)
  : list (event Cache) * outcome (string * string) :=
  let temp := match temp with Some t => t | None => default_temp end in
  let max_tokens :=
    match max_tokens with Some m => m | None => default_max_tokens end in
  let prompt := encode tok prompt in
  let d := {| tokens := []; skip := 0; stdout := EmptyString |} in
  let '(ev, r) := for_loop tok verbose max_tokens
                    (generate_step prompt (Some temp)) d in
  (ev,
   d <- r ;;
   let text := slice_from (skip d) (decode tok (tokens d)) in
   Ok (text, if verbose then (stdout d ++ text ++ newline)%string else stdout d)).

End Generation.

(** ** Merging the weight files (utils.py, lines 183-185)

    A dict is written as the list of its items, most recent first, and read
    with [Loader.get] below. *)

(** [d.update(other)]: every item of [other], in order, is set in [d]. *)
Definition update {V : Type} (d other : list (string * V)) : list (string * V) :=
  fold_left (fun d kv => kv :: d) other d.

(** [weights = {}; for wf in weight_files: weights.update(mx.load(wf))], with
    what [mx.load] gives for each file. *)
Definition merge_weights {V : Type} (mx_load : string -> list (string * V))
    (weight_files : list string) : list (string * V) :=
  fold_left (fun weights wf => update weights (mx_load wf)) weight_files [].

(** ** _get_classes, get_model_path and load (utils.py, lines 20-66, 156-199) *)

Module Loader.

(** The modules of [.models]. *)
Inductive arch : Type := llama | phi2.

Definition MODEL_MAPPING : list (string * arch) :=
  [ ("llama", llama); ("mistral", llama); ("phi", phi2) ]%string.

(** The values of a parsed [config.json], as far as [load] looks at them: a
    number is known by the text that [str] gives for it, and the items of a
    list are not looked at. *)
Inductive json : Type :=
| JStr (s : string)
| JNum (repr : string)
| JBool (b : bool)
| JNull
| JList
| JDict (fields : list (string * Z)).

Definition config := list (string * json).

(** [d.get(key)] on a dict written as its list of items. *)
Fixpoint get {V : Type} (key : string) (d : list (string * V)) : option V :=
  match d with
  | [] => None
  | (k, v) :: d' => if String.eqb k key then Some v else get key d'
  end.

(** [str(v)] inside the f-string of the error message. *)
Definition show (v : json) : string :=
  match v with
  | JStr s => s
  | JNum repr => repr
  | JBool true => "True"
  | JBool false => "False"
  | JNull => "None"
  | JList => "[...]"
  | JDict _ => "{...}"
  end.

Definition not_supported (model_type : json) : string :=
  ("Model type " ++ show model_type ++ " not supported.")%string.

(** [model_type not in MODEL_MAPPING] hashes the tag: a list or a dict
    cannot be hashed, and any other value that is not one of the keys is
    not in the table. *)
Definition _get_classes (cfg : config) : outcome arch :=
  match get "model_type" cfg with
  | None => Raise KeyError
  | Some model_type =>
      match model_type with
      | JDict _ | JList => Raise TypeError
      | JNull | JNum _ | JBool _ =>
          Raise (ValueError (not_supported model_type))
      | JStr s =>
          match get s MODEL_MAPPING with
          | None => Raise (ValueError (not_supported model_type))
          | Some a => Ok a
          end
      end
  end.

(** What opening and parsing [model_path / "config.json"] gives: the file
    is missing; or opening, reading or parsing it fails in another way (the
    path is not a directory: NotADirectoryError; the text is not JSON:
    JSONDecodeError); or it parses to something that is not an object; or
    it parses to an object. *)
Inductive config_file : Type :=
| ConfigMissing
| ConfigFails (e : exn)
| ConfigNotObject
| ConfigParsed (cfg : config).

(** What a model path gives: its [config.json], and the paths that
    [*.safetensors] matches. *)
Record model_dir : Type := {
  config_json : config_file;
  safetensors : list string
}.

(** What [load] has put together when it returns. *)
Record loaded : Type := {
  loaded_arch : arch;
  loaded_quantization : option json;
  loaded_weights : list (string * Z)
}.

(** What is outside the repository: pathlib's normal form of a path string,
    [str(Path(s))]; the local file system; what [snapshot_download] gives
    for a repository id, the path and content of the snapshot or its
    failure; what [mx.load] gives for a weight file; and lines 189-198, the
    construction of the model and of the tokenizer from what has been
    read. *)
Record world : Type := {
  path_str : string -> string;
  local : string -> option model_dir;
  hub : string -> outcome (string * model_dir);
  mx_load : string -> outcome (list (string * Z));
  finish : loaded -> outcome unit
}.

(** What [load] touches in the file system and on the hub. *)
Inductive access : Type :=
| Exists (path : string)
| Download (repo : string)
| OpenConfig (path : string)
| Glob (path : string).

Definition get_model_path (w : world) (path_or_hf_repo : string)
  : list access * outcome (string * model_dir) :=
  match local w path_or_hf_repo with
  | Some d => ([Exists path_or_hf_repo], Ok (path_str w path_or_hf_repo, d))
  | None =>
      ([Exists path_or_hf_repo; Download path_or_hf_repo],
       '(snapshot, d) <- hub w path_or_hf_repo ;;
       Ok (path_str w snapshot, d))
  end.

Definition config_not_found (model_path : string) : string :=
  ("[Errno 2] No such file or directory: '" ++ model_path ++ "/config.json'")%string.

Definition no_safetensors (model_path : string) : string :=
  ("No safetensors found in " ++ model_path)%string.

(** [for wf in weight_files: weights.update(mx.load(wf))] *)
Fixpoint load_weights (w : world) (weight_files : list string)
    (weights : list (string * Z)) : outcome (list (string * Z)) :=
  match weight_files with
  | [] => Ok weights
  | wf :: weight_files' =>
      tensors <- mx_load w wf ;;
      load_weights w weight_files' (update weights tensors)
  end.

Definition load (w : world) (path_or_hf_repo : string)
  : list access * outcome loaded :=
  match get_model_path w path_or_hf_repo with
  | (log, Ok (model_path, d)) =>
      match config_json d with
      | ConfigMissing =>
          (log ++ [OpenConfig model_path],
           Raise (FileNotFoundError (config_not_found model_path)))
      | ConfigFails e => (log ++ [OpenConfig model_path], Raise e)
      | ConfigNotObject => (log ++ [OpenConfig model_path], Raise AttributeError)
      | ConfigParsed cfg =>
          let quantization :=
            match get "quantization" cfg with
            | Some JNull | None => None
            | Some q => Some q
            end in
          let weight_files := safetensors d in
          let log := log ++ [OpenConfig model_path; Glob model_path] in
          match weight_files with
          | [] => (log, Raise (FileNotFoundError (no_safetensors model_path)))
          | _ :: _ =>
              (log,
               weights <- load_weights w weight_files [] ;;
               a <- _get_classes cfg ;;
               let l := {| loaded_arch := a;
                           loaded_quantization := quantization;
                           loaded_weights := weights |} in
               _ <- finish w l ;;
               Ok l)
          end
      end
  | (log, Raise e) => (log, Raise e)
  | (log, OutOfFuel) => (log, OutOfFuel)
  end.






End Loader.

(** ** Vocabulary of the statements *)

(** Ascending order of score, on indices. *)
Definition score_le (p : list Q) (a b : nat) : Prop := nth a p 0 <= nth b p 0.

(** The ranking [sorted_indices = argsort(np_logits)[::-1]]. *)
Definition ranking (p : list Q) : list nat := rev (argsort p).

(** The score at rank [j], for a rank in range. *)
Definition rank_score (p : list Q) (j : nat) : Q :=
  nth (nth j (ranking p) 0%nat) p 0.

(** The relative drop at rank [j] is below the cutoff. *)
Definition drop_lt {L : MxLib} (cutoff : Q) (p : list Q) (t0 : Q) (j : nat)
  : bool :=
  Qltb (rel_drop (rank_score p j) t0) cutoff.

(** The model calls among the events: input and cache passed. *)
Fixpoint model_calls {Cache : Type} (evs : list (event Cache))
  : list (list Z * option Cache) :=
  match evs with
  | [] => []
  | ModelCall input cache :: evs' => (input, cache) :: model_calls evs'
  | SampleCall _ _ :: evs' => model_calls evs'
  end.

(** The calls hand the cache on: the first one passes [c0], every call
    returns, the next one passes what it returned, and the last one returns
    [cN]. *)
Fixpoint cache_chain {Cache : Type}
    (model : list Z -> option Cache -> outcome (list (list Q) * Cache))
    (c0 : option Cache) (calls : list (list Z * option Cache))
    (cN : option Cache) : Prop :=
  match calls with
  | [] => cN = c0
  | (input, c) :: rest =>
      c = c0 /\
      exists logits c',
        model input c = Ok (logits, c') /\ cache_chain model (Some c') rest cN
  end.

(** Every item is what the sampler returned at its step: the model was
    called with the current [y] and cache, [sample] was called with
    [cutoff] on the last position of its logits, seeded with the second
    clock reading of the step, and the token it returned is the next [y]. *)
Fixpoint sampled_steps {L : MxLib} {Cache : Type}
    (model : list Z -> option Cache -> outcome (list (list Q) * Cache))
    (clock : nat -> Z) (cutoff : Q) (reads : nat) (y : list Z)
    (cache : option Cache) (items : list (Q * list Z)) : Prop :=
  match items with
  | [] => True
  | (t0, y') :: rest =>
      exists logits cache' row c,
        model y cache = Ok (logits, cache') /\
        last_position logits = Ok row /\
        sample cutoff (clock (S reads)) row = Ok (t0, c) /\
        y' = [Z.of_nat c] /\
        sampled_steps model clock cutoff (2 + reads) y' (Some cache') rest
  end.

(** ** A rational stand-in for the mlx library: its functions

    [1 + x] for [0 <= x] and [1 / (1 - x)] below 0 is positive and strictly
    increasing, like the exponential, and stays within the rationals; the
    scores are normalised by their sum. The relative drop is computed
    without rounding. The draw is the seed modulo the number of accepted
    entries. The examples below run on it. *)

Definition surrogate_exp (x : Q) : Q :=
  if Qle_bool 0 x then 1 + x else / (1 - x).

Definition weights_sum (l : list Q) : Q :=
  fold_right Qplus 0 (map surrogate_exp l).

Definition rational_softmax (l : list Q) : list Q :=
  map (fun x => surrogate_exp x / weights_sum l) l.

Definition modular_categorical (seed : Z) (l : list Q) : nat :=
  Z.to_nat (seed mod Z.of_nat (length l)).

(** ** Stand-ins for the model and the tokenizer

    A vocabulary of three tokens with eos id 2. The model counts its calls in
    its cache; it peaks at token 2 on its second call and at token 1 on every
    other call, at every input position. The tokenizer maps a character to
    its code and back. *)

Definition stub_model (input : list Z) (cache : option nat)
  : outcome (list (list Q) * nat) :=
  let calls := match cache with Some k => k | None => 0%nat end in
  let row := if (calls =? 1)%nat then [0; 0; 5] else [0; 5; 0] in
  Ok (map (fun _ => row) input, S calls).

Definition stub_clock (reads : nat) : Z := Z.of_nat reads.

Definition stub_tokenizer : tokenizer := {|
  encode := fun s =>
    map (fun a => Z.of_nat (Ascii.nat_of_ascii a)) (list_ascii_of_string s);
  decode := fun ts =>
    string_of_list_ascii (map (fun t => Ascii.ascii_of_nat (Z.to_nat t)) ts);
  eos_token_id := 2
|}.

Module LoaderExamples.

Import Loader.

(** What [mx.load] gives for two weight files that share a key. *)
Definition two_files (wf : string) : list (string * Z) :=
  if String.eqb wf "a.safetensors" then [("embed", 1%Z); ("norm", 2%Z)]%string
  else if String.eqb wf "b.safetensors" then [("norm", 3%Z); ("head", 4%Z)]%string
  else [].


End LoaderExamples.

(** A model that answers its first call like [stub_model] and fails on its
    second. *)
Definition flaky_model (input : list Z) (cache : option nat)
  : outcome (list (list Q) * nat) :=
  match cache with
  | Some 1%nat => Raise (ExternalError "shape mismatch")
  | _ => stub_model input cache
  end.

(** A model that fails on every call. *)
Definition failing_model (input : list Z) (cache : option nat)
  : outcome (list (list Q) * nat) :=
  Raise (ExternalError "shape mismatch").

Module MoreLoaderExamples.

Import Loader LoaderExamples.

Definition four_bits : json := JDict [("group_size", 64%Z); ("bits", 4%Z)]%string.

(** Local directories: one whose config has no architecture tag, one with a
    quantized phi model in two weight files, one with an unknown
    architecture and a weight file, one whose config is not JSON; and a hub
    that knows one repository. *)
Definition second_world : world := {|
  path_str := fun s => s;
  local := fun path =>
    if String.eqb path "untagged" then
      Some {| config_json := ConfigParsed [("quantization", four_bits)]%string;
              safetensors := ["a.safetensors"%string] |}
    else if String.eqb path "phi-4bit" then
      Some {| config_json :=
                ConfigParsed
                  [("model_type", JStr "phi"); ("quantization", four_bits)]%string;
              safetensors := ["a.safetensors"; "b.safetensors"]%string |}
    else if String.eqb path "gpt2-weights" then
      Some {| config_json := ConfigParsed [("model_type", JStr "gpt2")]%string;
              safetensors := ["a.safetensors"%string] |}
    else if String.eqb path "bad-json" then
      Some {| config_json :=
                ConfigFails (JSONDecodeError "Expecting value: line 1 column 1 (char 0)");
              safetensors := ["a.safetensors"%string] |}
    else None;
  hub := fun repo =>
    if String.eqb repo "org/llama" then
      Ok ("/cache/org--llama"%string,
          {| config_json :=
               ConfigParsed
                 [("model_type", JStr "llama"); ("quantization", JNull)]%string;
             safetensors := ["model.safetensors"%string] |})
    else Raise (ExternalError "repository not found");
  mx_load := fun wf => Ok (two_files wf);
  finish := fun _ => Ok tt
|}.

End MoreLoaderExamples.

(** * Facts *)

(** ** The monad *)

Lemma bind_Ok_inv {A B : Type} (c : outcome A) (k : A -> outcome B) (b : B) :
  bind c k = Ok b -> exists a, c = Ok a /\ k a = Ok b.
Proof.
  destruct c as [a | e | ]; simpl; intros H; try discriminate.
  exists a; split; [reflexivity | exact H].
Qed.

Lemma index_lt {A : Type} (l : list A) (i : nat) (d : A) :
  (i < length l)%nat -> index l i = Ok (nth i l d).
Proof.
  intros H. unfold index.
  rewrite (nth_error_nth' l d H). reflexivity.
Qed.

Lemma index_ge {A : Type} (l : list A) (i : nat) :
  (length l <= i)%nat -> index l i = Raise IndexError.
Proof.
  intros H. unfold index.
  apply nth_error_None in H. rewrite H. reflexivity.
Qed.

Lemma index_Ok_lt {A : Type} (l : list A) (i : nat) (a : A) :
  index l i = Ok a -> (i < length l)%nat /\ In a l.
Proof.
  unfold index. destruct (nth_error l i) as [x | ] eqn:E; intros H; inversion H; subst.
  split.
  - apply nth_error_Some. rewrite E. discriminate.
  - eapply nth_error_In; eassumption.
Qed.

(** ** np.argsort: a permutation of the indices, in ascending order of score *)

Lemma insert_index_perm (p : list Q) (i : nat) (l : list nat) :
  Permutation (insert_index p i l) (i :: l).
Proof.
  induction l as [ | k l IH]; simpl.
  - apply Permutation_refl.
  - destruct (Qle_bool (nth i p 0) (nth k p 0)).
    + apply Permutation_refl.
    + eapply perm_trans; [apply perm_skip, IH | apply perm_swap].
Qed.

Lemma insert_index_sorted (p : list Q) (i : nat) (l : list nat) :
  StronglySorted (score_le p) l -> StronglySorted (score_le p) (insert_index p i l).
Proof.
  induction 1 as [ | k l Hl IH Hk]; simpl.
  - constructor; constructor.
  - destruct (Qle_bool (nth i p 0) (nth k p 0)) eqn:E.
    + apply Qle_bool_iff in E.
      constructor; [constructor; assumption | ].
      constructor; [exact E | ].
      eapply Forall_impl; [ | exact Hk].
      intros x Hx. unfold score_le in *. eapply Qle_trans; eassumption.
    + constructor; [exact IH | ].
      assert (Hki : score_le p k i).
      { unfold score_le. destruct (Qlt_le_dec (nth k p 0) (nth i p 0)) as [Hlt | Hle].
        - apply Qlt_le_weak, Hlt.
        - apply Qle_bool_iff in Hle. congruence. }
      eapply Permutation_Forall; [apply Permutation_sym, insert_index_perm | ].
      constructor; assumption.
Qed.

Lemma argsort_perm (p : list Q) : Permutation (argsort p) (seq 0 (length p)).
Proof.
  unfold argsort. induction (seq 0 (length p)) as [ | i l IH]; simpl.
  - apply Permutation_refl.
  - eapply perm_trans; [apply insert_index_perm | apply perm_skip, IH].
Qed.

Lemma argsort_sorted (p : list Q) : StronglySorted (score_le p) (argsort p).
Proof.
  unfold argsort. induction (seq 0 (length p)) as [ | i l IH]; simpl.
  - constructor.
  - apply insert_index_sorted, IH.
Qed.

Lemma argsort_length (p : list Q) : length (argsort p) = length p.
Proof.
  rewrite (Permutation_length (argsort_perm p)). apply length_seq.
Qed.

Lemma argsort_In (p : list Q) (k : nat) :
  In k (argsort p) <-> (k < length p)%nat.
Proof.
  split; intros H.
  - apply (Permutation_in _ (argsort_perm p)) in H. apply in_seq in H. lia.
  - apply (Permutation_in _ (Permutation_sym (argsort_perm p))).
    apply in_seq. lia.
Qed.

Lemma last_In {A : Type} (l : list A) (d : A) : l <> [] -> In (last l d) l.
Proof.
  induction l as [ | a l IH]; intros H; [congruence | ].
  destruct l as [ | b l].
  - left. reflexivity.
  - right. apply IH. discriminate.
Qed.

Lemma last_cons {A : Type} (l : list A) (a d : A) :
  last (a :: l) d = last l a.
Proof.
  revert a d. induction l as [ | b l IH]; intros a d; [reflexivity | ].
  change (last (a :: b :: l) d) with (last (b :: l) d).
  rewrite (IH b d), (IH b a). reflexivity.
Qed.

Lemma sorted_last_max (p : list Q) (l : list nat) (d x : nat) :
  StronglySorted (score_le p) l -> In x l -> score_le p x (last l d).
Proof.
  induction 1 as [ | k l Hl IH Hk]; intros Hx.
  - destruct Hx.
  - destruct l as [ | k' l'].
    + destruct Hx as [-> | []]. simpl. apply Qle_refl.
    + change (last (k :: k' :: l') d) with (last (k' :: l') d).
      destruct Hx as [-> | Hx].
      * rewrite Forall_forall in Hk. apply Hk, last_In. discriminate.
      * apply IH, Hx.
Qed.

Lemma ranking_length (p : list Q) : length (ranking p) = length p.
Proof. unfold ranking. rewrite length_rev. apply argsort_length. Qed.

Lemma ranking_In (p : list Q) (k : nat) :
  In k (ranking p) <-> (k < length p)%nat.
Proof.
  unfold ranking. rewrite <- in_rev. apply argsort_In.
Qed.

Lemma ranking_nth_lt (p : list Q) (j : nat) :
  (j < length p)%nat -> (nth j (ranking p) 0%nat < length p)%nat.
Proof.
  intros H. apply ranking_In, nth_In. rewrite ranking_length. exact H.
Qed.

(** Rank 0 carries a largest score. *)
Lemma ranking_top (p : list Q) (i : nat) :
  (i < length p)%nat -> nth i p 0 <= nth (nth 0 (ranking p) 0%nat) p 0.
Proof.
  intros H.
  assert (Hne : argsort p <> []).
  { intros E. apply (f_equal (@length nat)) in E.
    rewrite argsort_length in E. simpl in E. lia. }
  assert (E : nth 0 (ranking p) 0%nat = last (argsort p) 0%nat).
  { unfold ranking.
    destruct (exists_last Hne) as [l [a Hl]]. rewrite Hl.
    rewrite rev_app_distr, last_last. reflexivity. }
  rewrite E.
  apply sorted_last_max; [apply argsort_sorted | apply argsort_In, H].
Qed.

(** ** The widening loop *)

Section WidenFacts.

Context {L : MxLib}.
Variable cutoff : Q.
Variable p : list Q.
Variable t0 : Q.

Let si := ranking p.
Let n := length p.

Lemma ranked_lt (j : nat) :
  (j < n)%nat -> ranked p si j = Ok (rank_score p j).
Proof.
  intros H. unfold ranked, si.
  rewrite (index_lt _ 0%nat) by (rewrite ranking_length; exact H).
  simpl. apply index_lt. apply ranking_nth_lt, H.
Qed.

Lemma ranked_ge (j : nat) :
  (n <= j)%nat -> ranked p si j = Raise IndexError.
Proof.
  intros H. unfold ranked, si.
  rewrite index_ge by (rewrite ranking_length; exact H).
  reflexivity.
Qed.

Lemma widen_cond_lt (j : nat) :
  (j < n)%nat -> widen_cond cutoff p si t0 j = Ok (drop_lt cutoff p t0 j).
Proof.
  intros H. unfold widen_cond. rewrite (ranked_lt H). simpl.
  apply Nat.ltb_lt in H. fold n. rewrite H, andb_true_r. reflexivity.
Qed.

Lemma widen_cond_ge (j : nat) :
  (n <= j)%nat -> widen_cond cutoff p si t0 j = Raise IndexError.
Proof.
  intros H. unfold widen_cond. rewrite (ranked_ge H). reflexivity.
Qed.

(** What the loop can do from [j], with fuel for every rank that is left:
    stop at a rank in range whose drop reaches the cutoff, every rank
    before it having been accepted, or run past the last rank and fail. *)
Lemma widen_result (fuel j : nat) :
  (j <= n)%nat -> (n < fuel + j)%nat ->
  match widen cutoff p si t0 fuel j with
  | Ok j' =>
      (j <= j' < n)%nat /\ drop_lt cutoff p t0 j' = false /\
      forall i, (j <= i < j')%nat -> drop_lt cutoff p t0 i = true
  | Raise e =>
      e = IndexError /\ forall i, (j <= i < n)%nat -> drop_lt cutoff p t0 i = true
  | OutOfFuel => False
  end.
Proof.
  revert j. induction fuel as [ | fuel IH]; intros j Hj Hfuel; [lia | ].
  simpl. destruct (Nat.eq_dec j n) as [-> | Hne].
  - rewrite widen_cond_ge by lia. simpl. split; [reflexivity | ]. intros i Hi; lia.
  - rewrite widen_cond_lt by lia. simpl.
    destruct (drop_lt cutoff p t0 j) eqn:E.
    + specialize (IH (S j) ltac:(lia) ltac:(lia)).
      destruct (widen cutoff p si t0 fuel (S j)) as [j' | e | ].
      * destruct IH as (H1 & H2 & H3). repeat split; try lia; try assumption.
        intros i Hi. destruct (Nat.eq_dec i j) as [-> | ]; [exact E | ].
        apply H3. lia.
      * destruct IH as (H1 & H2). split; [exact H1 | ].
        intros i Hi. destruct (Nat.eq_dec i j) as [-> | ]; [exact E | ].
        apply H2. lia.
      * exact IH.
    + repeat split; try lia; try assumption.
Qed.

(** The accepted vector: [j] copies of the score at rank [j]. *)
Lemma accept_fold (x : Q) (j : nat) (l : list nat) (acc : list Q) :
  ranked p si j = Ok x ->
  fold_left
    (fun acc (_ : nat) => a <- acc ;; y <- ranked p si j ;; Ok (a ++ [y]))
    l (Ok acc)
  = Ok (acc ++ repeat x (length l)).
Proof.
  intros H.
  set (f := fun (acc : outcome (list Q)) (_ : nat) =>
              a <- acc ;; y <- ranked p si j ;; Ok (a ++ [y])).
  assert (Hstep : forall a i, f (Ok a) i = Ok (a ++ [x])).
  { intros a i. unfold f. simpl. rewrite H. reflexivity. }
  clearbody f. revert acc. induction l as [ | i l IH]; intros acc; simpl.
  - rewrite app_nil_r. reflexivity.
  - rewrite Hstep, IH, <- app_assoc. reflexivity.
Qed.

Lemma accept_lt (j : nat) :
  (j < n)%nat -> accept p si j = Ok (repeat (rank_score p j) j).
Proof.
  intros H. unfold accept.
  rewrite accept_fold with (x := rank_score p j) by (apply ranked_lt, H).
  rewrite length_seq. reflexivity.
Qed.

End WidenFacts.

(** ** The sampler as a whole *)

Section SampleFacts.

Context {L : MxLib}.
Variable cutoff : Q.
Variable seed : Z.

(** On an empty vocabulary [sorted_indices[0]] is already out of range. *)
Lemma sample_empty (logits : list Q) :
  length logits = 0%nat -> sample cutoff seed logits = Raise IndexError.
Proof.
  intros H. unfold sample.
  assert (E : softmax logits = []).
  { apply length_zero_iff_nil. rewrite softmax_length. exact H. }
  rewrite E. reflexivity.
Qed.

(** [sample] is its loop followed by a draw that cannot fail. *)
Lemma sample_by_widen (logits : list Q) :
  let p := softmax logits in
  (0 < length logits)%nat ->
  sample cutoff seed logits =
  match widen cutoff p (ranking p) (rank_score p 0) (S (length p)) 1 with
  | Ok j =>
      Ok (rank_score p 0,
          nth (categorical seed (repeat (rank_score p j) j)) (ranking p) 0%nat)
  | Raise e => Raise e
  | OutOfFuel => OutOfFuel
  end.
Proof.
  intros p Hn. rewrite <- (softmax_length logits) in Hn. fold p in Hn.
  unfold sample. fold p. fold (ranking p).
  rewrite (index_lt _ 0%nat) by (rewrite ranking_length; exact Hn).
  cbn [bind].
  rewrite (index_lt _ 0) by (apply ranking_nth_lt, Hn).
  cbn [bind]. fold (rank_score p 0).
  pose proof (@widen_result L cutoff p (rank_score p 0) (S (length p)) 1
                ltac:(lia) ltac:(lia)) as Hw.
  destruct (widen cutoff p (ranking p) (rank_score p 0) (S (length p)) 1)
    as [j | e | ]; cbn [bind]; try reflexivity.
  destruct Hw as (Hj & _ & _).
  rewrite accept_lt by lia. cbn [bind].
  assert (Hidx : (categorical seed (repeat (rank_score p j) j) < j)%nat).
  { pose proof (@categorical_lt L seed (repeat (rank_score p j) j)
                  ltac:(destruct j; [lia | discriminate])) as Hc.
    rewrite repeat_length in Hc. exact Hc. }
  rewrite (index_lt _ 0%nat) by (rewrite ranking_length; lia).
  reflexivity.
Qed.

(** The loop always comes to an end, and [sample] with it. *)
Lemma sample_total (logits : list Q) :
  sample cutoff seed logits <> OutOfFuel.
Proof.
  destruct (Nat.eq_dec (length logits) 0) as [E | E].
  - rewrite (sample_empty _ E). discriminate.
  - rewrite sample_by_widen by lia.
    pose proof (@widen_result L cutoff (softmax logits)
                  (rank_score (softmax logits) 0)
                  (S (length (softmax logits))) 1) as Hw.
    rewrite softmax_length in Hw at 1 2.
    specialize (Hw ltac:(lia) ltac:(rewrite softmax_length; lia)).
    destruct (widen _ _ _ _ _ _); try discriminate. destruct Hw.
Qed.

(** The only failure of [sample] is an index out of range. *)
Lemma sample_raises (logits : list Q) (e : exn) :
  sample cutoff seed logits = Raise e -> e = IndexError.
Proof.
  destruct (Nat.eq_dec (length logits) 0) as [E | E].
  - rewrite (sample_empty _ E). congruence.
  - rewrite sample_by_widen by lia.
    pose proof (@widen_result L cutoff (softmax logits)
                  (rank_score (softmax logits) 0)
                  (S (length (softmax logits))) 1) as Hw.
    rewrite softmax_length in Hw at 1 2.
    specialize (Hw ltac:(lia) ltac:(rewrite softmax_length; lia)).
    destruct (widen _ _ _ _ _ _); try discriminate.
    intros H. inversion H; subst. apply Hw.
Qed.

(** An index that [sample] returns is an index of the vocabulary. *)
Lemma sample_in_range (logits : list Q) (t0 : Q) (c : nat) :
  sample cutoff seed logits = Ok (t0, c) -> (c < length logits)%nat.
Proof.
  destruct (Nat.eq_dec (length logits) 0) as [E | E].
  - rewrite (sample_empty _ E). discriminate.
  - rewrite sample_by_widen by lia.
    pose proof (@widen_result L cutoff (softmax logits)
                  (rank_score (softmax logits) 0)
                  (S (length (softmax logits))) 1) as Hw.
    rewrite softmax_length in Hw at 1 2.
    specialize (Hw ltac:(lia) ltac:(rewrite softmax_length; lia)).
    destruct (widen _ _ _ _ _ _) as [j | | ]; try discriminate.
    intros H. inversion H; subst. clear H.
    destruct Hw as (Hj & _ & _).
    rewrite <- (softmax_length logits). apply ranking_nth_lt.
    pose proof (@categorical_lt L seed (repeat (rank_score (softmax logits) j) j)
                  ltac:(destruct j; [lia | discriminate])) as Hc.
    rewrite repeat_length in Hc. lia.
Qed.

End SampleFacts.

(** ** Relative drops *)

Lemma Qltb_true (x y : Q) : Qltb x y = true <-> x < y.
Proof.
  unfold Qltb. rewrite negb_true_iff. split; intros H.
  - apply Qnot_le_lt. intros Hle. apply Qle_bool_iff in Hle. congruence.
  - destruct (Qle_bool y x) eqn:E; [ | reflexivity].
    apply Qle_bool_iff in E. exfalso. apply (Qlt_not_le _ _ H E).
Qed.

Lemma Qltb_false (x y : Q) : Qltb x y = false <-> y <= x.
Proof.
  unfold Qltb. rewrite negb_false_iff. apply Qle_bool_iff.
Qed.

(** Scores are not negative, so no relative drop exceeds 1. *)
Lemma drop_le_1 (a t0 : Q) : 0 <= a -> 0 <= t0 -> 1 - a / t0 <= 1.
Proof.
  intros Ha Ht.
  assert (H : 0 <= a / t0).
  { unfold Qdiv. apply Qmult_le_0_compat; [exact Ha | ].
    apply Qinv_le_0_compat, Ht. }
  lra.
Qed.

(** Below the top score the relative drop is not negative. *)
Lemma drop_ge_0 (a t0 : Q) : 0 <= a -> a <= t0 -> 0 <= 1 - a / t0.
Proof.
  intros Ha Hle.
  assert (H : a / t0 <= 1).
  { destruct (Qlt_le_dec 0 t0) as [Hpos | Hzero].
    - apply Qle_shift_div_r; [exact Hpos | lra].
    - assert (E : a == 0) by lra.
      rewrite E. unfold Qdiv. rewrite Qmult_0_l. lra. }
  lra.
Qed.

Section Drops.

Context {L : MxLib}.
Variable logits : list Q.

Let p := softmax logits.

Lemma rank_score_nonneg (j : nat) :
  (j < length logits)%nat -> 0 <= rank_score p j.
Proof.
  intros H. apply (softmax_nonneg logits). unfold rank_score.
  apply nth_In, ranking_nth_lt. unfold p. rewrite softmax_length. exact H.
Qed.

Lemma rank_score_le_top (j : nat) :
  (j < length logits)%nat -> rank_score p j <= rank_score p 0.
Proof.
  intros H. unfold rank_score. apply ranking_top, ranking_nth_lt.
  unfold p. rewrite softmax_length. exact H.
Qed.

(** A cutoff above 1 accepts every rank. *)
Lemma drop_lt_above_one (cutoff : Q) (j : nat) :
  1 < cutoff -> (0 < length logits)%nat -> (j < length logits)%nat ->
  drop_lt cutoff p (rank_score p 0) j = true.
Proof.
  intros Hc Hn Hj. unfold drop_lt. apply Qltb_true.
  eapply Qle_lt_trans; [ | exact Hc].
  apply rel_drop_le_1; apply rank_score_nonneg; assumption.
Qed.

(** A cutoff of 0 accepts no rank. *)
Lemma drop_lt_zero (j : nat) :
  (j < length logits)%nat -> drop_lt 0 p (rank_score p 0) j = false.
Proof.
  intros Hj. unfold drop_lt. apply Qltb_false.
  apply rel_drop_ge_0; [apply rank_score_nonneg | apply rank_score_le_top]; exact Hj.
Qed.

End Drops.

Section SampleCutoffs.

Context {L : MxLib}.
Variable seed : Z.

(** With a cutoff above 1 the loop runs past the last rank on every
    vocabulary. *)
Lemma sample_above_one (cutoff : Q) (logits : list Q) :
  1 < cutoff -> sample cutoff seed logits = Raise IndexError.
Proof.
  intros Hc. destruct (Nat.eq_dec (length logits) 0) as [E | E].
  - apply sample_empty, E.
  - rewrite sample_by_widen by lia.
    pose proof (@widen_result L cutoff (softmax logits)
                  (rank_score (softmax logits) 0)
                  (S (length (softmax logits))) 1) as Hw.
    rewrite softmax_length in Hw at 1 2.
    specialize (Hw ltac:(lia) ltac:(rewrite softmax_length; lia)).
    destruct (widen _ _ _ _ _ _) as [j | e | ].
    + destruct Hw as (Hj & Hstop & _). rewrite softmax_length in Hj.
      rewrite drop_lt_above_one in Hstop by (assumption || lia).
      discriminate.
    + destruct Hw as [-> _]. reflexivity.
    + destruct Hw.
Qed.

(** With a cutoff of 0 and at least two tokens the loop stops at once and
    the top-ranked index is returned, whose score no other exceeds. *)
Lemma sample_zero_argmax (logits : list Q) :
  (2 <= length logits)%nat ->
  let p := softmax logits in
  let top := nth 0 (ranking p) 0%nat in
  widen 0 p (ranking p) (rank_score p 0) (S (length p)) 1 = Ok 1%nat /\
  sample 0 seed logits = Ok (nth top p 0, top) /\
  (top < length logits)%nat /\
  forall i, (i < length logits)%nat -> nth i p 0 <= nth top p 0.
Proof.
  intros Hn p top.
  assert (Hp : length p = length logits) by apply softmax_length.
  assert (Hw : widen 0 p (ranking p) (rank_score p 0) (S (length p)) 1
               = Ok 1%nat).
  { cbn [widen]. rewrite widen_cond_lt by lia. cbn [bind].
    unfold p. rewrite drop_lt_zero by lia. reflexivity. }
  split; [exact Hw | ]. split; [ | split].
  - rewrite sample_by_widen by lia. fold p. rewrite Hw.
    pose proof (@categorical_lt L seed (repeat (rank_score p 1) 1)
                  ltac:(discriminate)) as Hc.
    simpl in Hc.
    replace (categorical seed (repeat (rank_score p 1) 1)) with 0%nat
      by (simpl; lia).
    reflexivity.
  - rewrite <- Hp. apply ranking_nth_lt. lia.
  - intros i Hi. apply ranking_top. lia.
Qed.

End SampleCutoffs.

Lemma surrogate_exp_pos (x : Q) : 0 < surrogate_exp x.
Proof.
  unfold surrogate_exp. destruct (Qle_bool 0 x) eqn:E.
  - apply Qle_bool_iff in E. lra.
  - apply Qinv_lt_0_compat.
    assert (H : x < 0).
    { apply Qnot_le_lt. intros H. apply Qle_bool_iff in H. congruence. }
    lra.
Qed.

Lemma weights_sum_nonneg (l : list Q) : 0 <= weights_sum l.
Proof.
  unfold weights_sum. induction l as [ | x l IH]; simpl.
  - lra.
  - pose proof (surrogate_exp_pos x). lra.
Qed.

Lemma weights_sum_pos (l : list Q) : l <> [] -> 0 < weights_sum l.
Proof.
  destruct l as [ | x l]; [congruence | intros _].
  unfold weights_sum. simpl.
  pose proof (surrogate_exp_pos x). pose proof (weights_sum_nonneg l) as H1.
  unfold weights_sum in H1. lra.
Qed.

Lemma rational_softmax_length (l : list Q) :
  length (rational_softmax l) = length l.
Proof. apply length_map. Qed.

Lemma rational_softmax_nonneg (l : list Q) (x : Q) :
  In x (rational_softmax l) -> 0 <= x.
Proof.
  unfold rational_softmax. intros H. apply in_map_iff in H.
  destruct H as (y & <- & _).
  unfold Qdiv. apply Qmult_le_0_compat.
  - apply Qlt_le_weak, surrogate_exp_pos.
  - apply Qinv_le_0_compat, weights_sum_nonneg.
Qed.

Lemma rational_softmax_nth (l : list Q) (i : nat) :
  (i < length l)%nat ->
  nth i (rational_softmax l) 0 = surrogate_exp (nth i l 0) / weights_sum l.
Proof.
  intros H. unfold rational_softmax.
  rewrite nth_indep with (d' := surrogate_exp 0 / weights_sum l)
    by (rewrite length_map; exact H).
  apply (map_nth (fun x => surrogate_exp x / weights_sum l)).
Qed.

Lemma modular_categorical_lt (seed : Z) (l : list Q) :
  l <> [] -> (modular_categorical seed l < length l)%nat.
Proof.
  intros H. unfold modular_categorical.
  assert (Hpos : (0 < Z.of_nat (length l))%Z).
  { destruct l; [congruence | simpl; lia]. }
  pose proof (Z.mod_pos_bound seed _ Hpos). lia.
Qed.

(** The stand-in meets the interface. *)
Definition rational_mx : MxLib := {|
  softmax := rational_softmax;
  categorical := modular_categorical;
  rel_drop := fun p t0 => 1 - p / t0;
  softmax_length := rational_softmax_length;
  softmax_nonneg := rational_softmax_nonneg;
  rel_drop_le_1 := drop_le_1;
  rel_drop_ge_0 := drop_ge_0;
  categorical_lt := modular_categorical_lt
|}.

(** ** Claims about the sampler *)

Section SamplerClaims.

Context {L : MxLib}.

(** The loop stops only at a rank inside the vocabulary, whatever the fuel
    and the start. *)
Lemma widen_Ok_lt (cutoff t0 : Q) (p : list Q) (fuel j j' : nat) :
  widen cutoff p (ranking p) t0 fuel j = Ok j' -> (j' < length p)%nat.
Proof.
  revert j. induction fuel as [ | fuel IH]; intros j; simpl; [discriminate | ].
  destruct (Nat.lt_ge_cases j (length p)) as [Hlt | Hge].
  - rewrite widen_cond_lt by exact Hlt. cbn [bind].
    destruct (drop_lt cutoff p t0 j).
    + apply IH.
    + intros H. inversion H; subst. exact Hlt.
  - rewrite widen_cond_ge by exact Hge. discriminate.
Qed.

(** On a vocabulary of one token the first test of the loop reads rank 1. *)
Lemma sample_one (cutoff : Q) (seed : Z) (x : Q) :
  sample cutoff seed [x] = Raise IndexError.
Proof.
  rewrite sample_by_widen by (simpl; lia).
  assert (Hp : length (softmax [x]) = 1%nat) by apply softmax_length.
  rewrite Hp. cbn [widen].
  rewrite widen_cond_ge by lia. reflexivity.
Qed.

(** C1 (the code breaks it). The claim: on every logits vector of size at
    least 1 and for every cutoff, the sampler returns an index of the
    vocabulary and never reads the ranking out of range. The code: on a
    vocabulary of one token [sample] raises IndexError for every cutoff,
    and with the cutoff that [generate_step] declares as its default, 7.0,
    it raises IndexError on every logits vector. *)
Theorem sample_index_error (seed : Z) :
  (forall cutoff x, sample cutoff seed [x] = Raise IndexError) /\
  (forall logits, sample default_cutoff seed logits = Raise IndexError).
Proof.
  split.
  - intros cutoff x. apply sample_one.
  - intros logits. apply sample_above_one. unfold default_cutoff. lra.
Qed.

(** C4 (the code breaks it). The claim: on a vocabulary of size 1 the
    widening loop does not index out of range and the sampler returns the
    single index. The code: the first evaluation of the loop condition
    reads [sorted_indices[1]], which is out of range, so the loop and the
    sampler raise IndexError for every cutoff. *)
Theorem widen_vocabulary_of_one (cutoff t0 : Q) (x : Q) (fuel : nat) (seed : Z) :
  let np_logits := softmax [x] in
  let sorted_indices := rev (argsort np_logits) in
  length sorted_indices = 1%nat /\
  index sorted_indices 1 = Raise IndexError /\
  widen_cond cutoff np_logits sorted_indices t0 1 = Raise IndexError /\
  widen cutoff np_logits sorted_indices t0 (S fuel) 1 = Raise IndexError /\
  sample cutoff seed [x] = Raise IndexError.
Proof.
  intros np_logits sorted_indices.
  assert (Hp : length np_logits = 1%nat) by apply softmax_length.
  assert (Hs : length sorted_indices = 1%nat).
  { unfold sorted_indices. fold (ranking np_logits).
    rewrite ranking_length. exact Hp. }
  assert (Hc : widen_cond cutoff np_logits sorted_indices t0 1
               = Raise IndexError).
  { apply widen_cond_ge. lia. }
  repeat split.
  - exact Hs.
  - apply index_ge. lia.
  - exact Hc.
  - cbn [widen]. rewrite Hc. reflexivity.
  - apply sample_one.
Qed.

(** C5 (the code breaks it). The claim: with a cutoff at least the largest
    relative drop, such as 1e9, the loop ends with [j] equal to the
    vocabulary size. The code: the loop never ends with [j] equal to the
    vocabulary size, and with cutoff 1e9 the sampler raises IndexError on
    every logits vector. *)
Theorem sample_cutoff_1e9 (seed : Z) (logits : list Q) :
  let np_logits := softmax logits in
  sample 1000000000 seed logits = Raise IndexError /\
  forall cutoff t0 fuel,
    widen cutoff np_logits (rev (argsort np_logits)) t0 fuel 1
    <> Ok (length logits).
Proof.
  intros np_logits. split.
  - apply sample_above_one. lra.
  - intros cutoff t0 fuel H. apply widen_Ok_lt in H.
    unfold np_logits in H. rewrite softmax_length in H. lia.
Qed.

(** C6 (the code breaks it). The claim: with cutoff 0, on every logits
    vector, [j] stays 1 and the top-ranked index is returned. The code: on
    a vocabulary of one token [sample] with cutoff 0 raises IndexError
    (on two tokens or more the claim holds: [sample_zero_argmax]). *)
Theorem sample_zero_vocabulary_of_one (seed : Z) (x : Q) :
  sample 0 seed [x] = Raise IndexError.
Proof. apply sample_one. Qed.

(** C7. When the widening loop stops at rank [j], the accepted vector has
    exactly [j] entries, each of them the score
    [np_logits[sorted_indices[j]]] of rank [j] itself, and the index that
    [sample] returns is the one the categorical draw over that vector
    selects in the ranking. *)
Theorem accepted_is_boundary_score
    (cutoff : Q) (seed : Z) (logits : list Q) (j : nat) :
  let np_logits := softmax logits in
  let sorted_indices := rev (argsort np_logits) in
  forall t0,
  ranked np_logits sorted_indices 0 = Ok t0 ->
  widen cutoff np_logits sorted_indices t0 (S (length np_logits)) 1 = Ok j ->
  exists boundary accepted_logits,
    ranked np_logits sorted_indices j = Ok boundary /\
    accept np_logits sorted_indices j = Ok accepted_logits /\
    length accepted_logits = j /\
    (forall i, (i < j)%nat -> nth_error accepted_logits i = Some boundary) /\
    sample cutoff seed logits
    = Ok (t0, nth (categorical seed accepted_logits) sorted_indices 0%nat).
Proof.
  intros np_logits sorted_indices t0 Ht0 Hw.
  fold (ranking np_logits) in sorted_indices.
  pose proof (widen_Ok_lt _ _ _ _ _ Hw) as Hj.
  assert (Hn : (0 < length logits)%nat).
  { unfold np_logits in Hj. rewrite softmax_length in Hj. lia. }
  assert (Et0 : t0 = rank_score np_logits 0).
  { unfold sorted_indices in Ht0. rewrite ranked_lt in Ht0 by lia.
    congruence. }
  exists (rank_score np_logits j), (repeat (rank_score np_logits j) j).
  repeat split.
  - apply ranked_lt, Hj.
  - apply accept_lt, Hj.
  - apply repeat_length.
  - intros i Hi. rewrite nth_error_repeat by exact Hi. reflexivity.
  - rewrite sample_by_widen by exact Hn. fold np_logits.
    unfold sorted_indices in Hw. rewrite <- Et0, Hw. reflexivity.
Qed.

End SamplerClaims.

(** C7 on an example: scores [2/5, 2/5, 1/5] and cutoff 1/2 stop the loop at
    rank 2, and both accepted entries are the score 1/5 of rank 2. *)
Lemma accepted_is_boundary_score_witness :
  let L := rational_mx in
  let logits := [1; 1; 0] in
  let np_logits := softmax logits in
  let sorted_indices := rev (argsort np_logits) in
  ranked np_logits sorted_indices 0 = Ok (2 # 5) /\
  widen (1 # 2) np_logits sorted_indices (2 # 5) 4 1 = Ok 2%nat /\
  exists boundary accepted_logits,
    ranked np_logits sorted_indices 2 = Ok boundary /\
    accept np_logits sorted_indices 2 = Ok accepted_logits /\
    length accepted_logits = 2%nat /\
    (forall i, (i < 2)%nat -> nth_error accepted_logits i = Some boundary) /\
    sample (1 # 2) 5 logits
    = Ok (2 # 5, nth (categorical 5 accepted_logits) sorted_indices 0%nat).
Proof.
  intros L logits np_logits sorted_indices.
  split; [vm_compute; reflexivity | ].
  split; [vm_compute; reflexivity | ].
  apply (@accepted_is_boundary_score rational_mx (1 # 2) 5%Z [1; 1; 0] 2).
  - vm_compute. reflexivity.
  - vm_compute. reflexivity.
Defined.

(** ** The generation loop *)

Section GenerationFacts.

Context {L : MxLib}.
Variable Cache : Type.
Variable model : list Z -> option Cache -> outcome (list (list Q) * Cache).
Variable clock : nat -> Z.


Lemma model_inputs_app (a b : list (event Cache)) :
  model_inputs (a ++ b) = model_inputs a ++ model_inputs b.
Proof.
  induction a as [ | [input cache | c logits] a IH]; simpl; congruence.
Qed.

Lemma sample_cutoffs_app (a b : list (event Cache)) :
  sample_cutoffs (a ++ b) = sample_cutoffs a ++ sample_cutoffs b.
Proof.
  induction a as [ | [input cache | c logits] a IH]; simpl; congruence.
Qed.

(** A turn that yields: one model call on the current [y], one sampler
    call on the last position, and the sampled token alone as the new [y]. *)
Lemma next_Ok (g g' : generator Cache) (ev : list (event Cache))
    (it : Q * list Z) :
  next model clock g = (ev, Ok (it, g')) ->
  exists logits cache row t0 c,
    model (gen_y g) (gen_cache g) = Ok (logits, cache) /\
    last_position logits = Ok row /\
    sample (gen_cutoff g) (clock (S (gen_reads g))) row = Ok (t0, c) /\
    ev = [ModelCall (gen_y g) (gen_cache g); SampleCall (gen_cutoff g) row] /\
    it = (t0, [Z.of_nat c]) /\
    gen_y g' = [Z.of_nat c] /\
    gen_cache g' = Some cache /\
    gen_cutoff g' = gen_cutoff g.
Proof.
  unfold next.
  destruct (model (gen_y g) (gen_cache g)) as [[logits cache] | e | ] eqn:Em;
    try (intros H; inversion H; fail).
  destruct (last_position logits) as [row | e | ] eqn:El;
    try (intros H; inversion H; fail).
  destruct (sample (gen_cutoff g) (clock (S (gen_reads g))) row)
    as [[t0 c] | e | ] eqn:Es; simpl;
    intros H; inversion H; subst.
  exists logits, cache, row, t0, c. repeat split; assumption || reflexivity.
Qed.

(** Whatever a turn does, a sampler call in it uses the generator's cutoff,
    and its first model call reads the generator's [y]. *)
Lemma next_cutoffs (g : generator Cache) :
  Forall (fun c => c = gen_cutoff g) (sample_cutoffs (fst (next model clock g))).
Proof.
  unfold next.
  destruct (model (gen_y g) (gen_cache g)) as [[logits cache] | e | ];
    simpl; try constructor.
  destruct (last_position logits) as [row | e | ]; simpl;
    repeat constructor.
Qed.

(** The model inputs over [n] yielded items: the generator's [y] first,
    then each yielded one-token array, the last one left for the turn to
    come. *)
Lemma take_inputs (n : nat) (g g' : generator Cache)
    (ev : list (event Cache)) (items : list (Q * list Z)) :
  take model clock n g = (ev, Ok (items, g')) ->
  length items = n /\
  Forall (fun it => length (snd it) = 1%nat) items /\
  model_inputs ev = firstn n (gen_y g :: map snd items) /\
  gen_y g' = last (map snd items) (gen_y g) /\
  gen_cutoff g' = gen_cutoff g.
Proof.
  revert g ev items. induction n as [ | n IH]; intros g ev items; simpl.
  - intros H. inversion H; subst. repeat split. constructor.
  - destruct (next model clock g) as [ev1 [[it g1] | e | ]] eqn:En;
      try (intros H; inversion H; fail).
    destruct (take model clock n g1) as [ev2 r] eqn:Et.
    destruct r as [[items2 g2] | e | ]; simpl;
      intros H; inversion H; subst.
    destruct (IH _ _ _ Et) as (Hlen & Hone & Hin & Hy & Hc).
    destruct (next_Ok _ En)
      as (logits & cache & row & t0 & c & _ & _ & _ & -> & -> & Hy1 & _ & Hc1).
    rewrite Hy1 in *. simpl. repeat split.
    + congruence.
    + constructor; [reflexivity | exact Hone].
    + f_equal. exact Hin.
    + rewrite Hy. symmetry. apply last_cons.
    + congruence.
Qed.

End GenerationFacts.

(** ** The driver *)

Lemma slice_from_0 (s : string) : slice_from 0 s = s.
Proof.
  unfold slice_from. rewrite Nat.sub_0_r.
  induction s as [ | a s IH]; simpl; [reflexivity | ].
  rewrite IH. reflexivity.
Qed.

Section DriverFacts.

Context {L : MxLib}.
Variable Cache : Type.
Variable model : list Z -> option Cache -> outcome (list (list Q) * Cache).
Variable clock : nat -> Z.
Variable tok : tokenizer.
Variable verbose : bool.


(** The tuple that [generate_step] yields is not the eos id, and has no
    [item]. *)
Lemma py_eq_tuple (t0 : Q) (y : list Z) (eos : Z) :
  py_eq (PyTuple t0 y) eos = Ok false.
Proof. reflexivity. Qed.

Lemma item_tuple (t0 : Q) (y : list Z) :
  item (PyTuple t0 y) = Raise AttributeError.
Proof. reflexivity. Qed.

Lemma body_tuple (t0 : Q) (y : list Z) (d : driver) :
  body tok verbose (PyTuple t0 y) d = Raise AttributeError.
Proof. reflexivity. Qed.

(** With a number left in the range, the loop ends in its first turn. *)
Lemma for_loop_S (remaining : nat) (g : generator Cache) (d : driver) :
  for_loop model clock tok verbose (S remaining) g d =
  match next model clock g with
  | (ev, Ok _) => (ev, Raise AttributeError)
  | (ev, Raise e) => (ev, Raise e)
  | (ev, OutOfFuel) => (ev, OutOfFuel)
  end.
Proof.
  cbn [for_loop].
  destruct (next model clock g) as [ev [[[t0 y] g'] | e | ]]; reflexivity.
Qed.

(** With the range exhausted, the generator is still advanced once. *)
Lemma for_loop_O (g : generator Cache) (d : driver) :
  for_loop model clock tok verbose 0 g d =
  match next model clock g with
  | (ev, Ok _) => (ev, Ok d)
  | (ev, Raise e) => (ev, Raise e)
  | (ev, OutOfFuel) => (ev, OutOfFuel)
  end.
Proof.
  cbn [for_loop].
  destruct (next model clock g) as [ev [[[t0 y] g'] | e | ]]; reflexivity.
Qed.

(** The events of the loop are those of one turn of the generator. *)
Lemma for_loop_events (remaining : nat) (g : generator Cache) (d : driver) :
  fst (for_loop model clock tok verbose remaining g d) = fst (next model clock g).
Proof.
  destruct remaining; [rewrite for_loop_O | rewrite for_loop_S];
    destruct (next model clock g) as [ev [[it g'] | e | ]]; reflexivity.
Qed.

Lemma generate_events (prompt : string) (temp : option Q)
    (max_tokens : option nat) :
  fst (generate model clock tok prompt temp max_tokens verbose) =
  fst (next model clock (generate_step Cache (encode tok prompt)
              (Some match temp with Some t => t | None => default_temp end))).
Proof.
  unfold generate.
  rewrite <- (for_loop_events
                match max_tokens with
                | Some m => m
                | None => default_max_tokens
                end _
                {| tokens := []; skip := 0; stdout := EmptyString |}).
  destruct (for_loop _ _ _ _ _ _ _) as [ev r]. reflexivity.
Qed.

End DriverFacts.

(** ** Claims about the generation loop and the driver *)

Section DriverClaims.

Context {L : MxLib}.
Variable Cache : Type.
Variable model : list Z -> option Cache -> outcome (list (list Q) * Cache).
Variable clock : nat -> Z.

(** C3, as amended. Over the first [n] steps of the generation loop the
    model is called with the prompt at step 1 and, at every later step,
    with the one-token sequence that holds the token sampled by the step
    before: every sampled token is the model input of the next step, in
    order and once, and no longer sequence is ever passed. *)
Theorem model_inputs_of_steps
    (prompt : list Z) (cutoff : option Q) (n : nat)
    (ev : list (event Cache)) (items : list (Q * list Z))
    (g : generator Cache) :
  take model clock n (generate_step Cache prompt cutoff) = (ev, Ok (items, g)) ->
  length items = n /\
  model_inputs ev = firstn n (prompt :: map snd items) /\
  Forall (fun it => length (snd it) = 1%nat) items /\
  forall k, (1 <= k < n)%nat ->
    nth k (model_inputs ev) [] = nth (k - 1) (map snd items) [] /\
    length (nth k (model_inputs ev) []) = 1%nat.
Proof.
  intros H. apply take_inputs in H. destruct H as (Hlen & Hone & Hin & _ & _).
  simpl in Hin. repeat split; try assumption.
  - rewrite Hin. destruct k as [ | k]; [lia | ].
    destruct n as [ | n]; [lia | ]. simpl.
    rewrite Nat.sub_0_r, nth_firstn.
    replace (k <? n)%nat with true by (symmetry; apply Nat.ltb_lt; lia).
    reflexivity.
  - rewrite Hin. destruct k as [ | k]; [lia | ].
    destruct n as [ | n]; [lia | ]. simpl.
    rewrite nth_firstn.
    replace (k <? n)%nat with true by (symmetry; apply Nat.ltb_lt; lia).
    assert (Hk : (k < length items)%nat) by lia.
    rewrite nth_indep with (d' := snd (0, [])) by (rewrite length_map; lia).
    rewrite map_nth.
    rewrite Forall_forall in Hone. apply Hone, nth_In, Hk.
Qed.

Variable tok : tokenizer.

(** C8, as amended. Whenever the budget is at least 1 and the first step of
    the generation loop yields,
    the driver's loop variable is the yielded tuple: it does not compare
    equal to the eos id, its [item] raises AttributeError in the first
    turn of the loop with no token accumulated, and [generate] ends with
    that error; with such a budget [generate] never returns a text. *)
Theorem driver_fails_on_first_item
    (prompt : string) (temp : option Q) (max_tokens : option nat)
    (verbose : bool) :
  (1 <= match max_tokens with Some m => m | None => default_max_tokens end)%nat ->
  let cutoff := match temp with Some t => t | None => default_temp end in
  let d0 := {| tokens := []; skip := 0; stdout := EmptyString |} in
  (forall ev t0 y g,
     next model clock (generate_step Cache (encode tok prompt) (Some cutoff))
     = (ev, Ok ((t0, y), g)) ->
     py_eq (PyTuple t0 y) (eos_token_id tok) = Ok false /\
     item (PyTuple t0 y) = Raise AttributeError /\
     body tok verbose (PyTuple t0 y) d0 = Raise AttributeError /\
     generate model clock tok prompt temp max_tokens verbose
     = (ev, Raise AttributeError)) /\
  (forall r,
     snd (generate model clock tok prompt temp max_tokens verbose) <> Ok r).
Proof.
  intros Hm cutoff d0.
  unfold generate. fold cutoff. fold d0.
  destruct (match max_tokens with Some m => m | None => default_max_tokens end)
    as [ | m]; [lia | ].
  rewrite for_loop_S.
  destruct (next model clock _) as [ev [[[t0 y] g] | e | ]]; split.
  - intros ev' t0' y' g' H. inversion H; subst. repeat split.
  - intros r. simpl. discriminate.
  - intros ev' t0' y' g' H. inversion H.
  - intros r. simpl. discriminate.
  - intros ev' t0' y' g' H. inversion H.
  - intros r. simpl. discriminate.
Qed.

(** C9. The cutoff that the sampler runs with is [generate]'s [temp], 0.0
    when [temp] is left to its default: as soon as the model has answered
    the prompt, what [generate] does is decided by [sample] called with that
    cutoff on the last-position logits (its failure is [generate]'s failure,
    and when it returns the loop fails on the tuple, or ends at once on a
    budget of 0). The 7.0 that [generate_step] declares as its own default
    is not used: with a cutoff above 1 the sampler fails on every logits
    vector, and with [temp] left to its default it returns on every
    vocabulary of two tokens or more. *)
Theorem generate_cutoff_is_temp
    (prompt : string) (temp : option Q) (max_tokens : option nat)
    (verbose : bool) :
  let cutoff := match temp with Some t => t | None => 0 end in
  let budget :=
    match max_tokens with Some m => m | None => default_max_tokens end in
  let ev := fst (generate model clock tok prompt temp max_tokens verbose) in
  Forall (fun c => c = cutoff) (sample_cutoffs ev) /\
  (temp = None -> ~ In default_cutoff (sample_cutoffs ev)) /\
  (forall logits cache row,
     model (encode tok prompt) None = Ok (logits, cache) ->
     last_position logits = Ok row ->
     generate model clock tok prompt temp max_tokens verbose =
     ([ModelCall (encode tok prompt) None; SampleCall cutoff row],
      match sample cutoff (clock 1%nat) row with
      | Ok _ =>
          match budget with
          | O => Ok (decode tok [],
                     if verbose then (decode tok [] ++ newline)%string
                     else EmptyString)
          | S _ => Raise AttributeError
          end
      | Raise e => Raise e
      | OutOfFuel => OutOfFuel
      end) /\
     (1 < cutoff -> sample cutoff (clock 1%nat) row = Raise IndexError) /\
     (temp = None -> (2 <= length row)%nat ->
      exists r, sample cutoff (clock 1%nat) row = Ok r)).
Proof.
  intros cutoff budget ev.
  assert (Hev : ev = fst (next model clock
                            (generate_step Cache (encode tok prompt) (Some cutoff)))).
  { unfold ev. rewrite generate_events. reflexivity. }
  assert (Hall : Forall (fun c => c = cutoff) (sample_cutoffs ev)).
  { rewrite Hev.
    exact (next_cutoffs model clock
             (generate_step Cache (encode tok prompt) (Some cutoff))). }
  split; [exact Hall | split].
  - intros -> Hin. rewrite Forall_forall in Hall.
    apply Hall in Hin. discriminate.
  - intros logits cache row Hmodel Hrow. split; [ | split].
    + unfold generate. fold budget. change default_temp with 0. fold cutoff.
      assert (Hnext : next model clock
                        (generate_step Cache (encode tok prompt) (Some cutoff))
                      = ([ModelCall (encode tok prompt) None; SampleCall cutoff row],
                         '(t0, c) <- sample cutoff (clock 1%nat) row ;;
                         Ok ((t0, [Z.of_nat c]),
                             {| gen_cutoff := cutoff;
                                gen_y := [Z.of_nat c];
                                gen_cache := Some cache;
                                gen_reads := 2 |}))).
      { unfold next. simpl. rewrite Hmodel, Hrow. reflexivity. }
      destruct budget as [ | m].
      * rewrite for_loop_O, Hnext.
        destruct (sample cutoff (clock 1%nat) row) as [[t0 c] | e | ];
          cbn [bind]; try reflexivity.
        simpl. rewrite slice_from_0. reflexivity.
      * rewrite for_loop_S, Hnext.
        destruct (sample cutoff (clock 1%nat) row) as [[t0 c] | e | ];
          reflexivity.
    + intros Hc. apply sample_above_one, Hc.
    + intros -> Hlen.
      destruct (@sample_zero_argmax L (clock 1%nat) row Hlen) as (_ & Hs & _).
      eexists. exact Hs.
Qed.

End DriverClaims.

(** C2 (the code breaks it). The claim: the driver stops at the first step
    whose token is the eos id and returns the text before it. The code, on
    the end-to-end example of the specification (prompt "Hello", a model
    that peaks at the eos id on step 2, [max_tokens=10]): [generate] raises
    AttributeError in the first turn of its loop, after one step of the
    generation loop, and returns no text. *)
Theorem generate_hello_raises :
  generate (L := rational_mx) stub_model stub_clock stub_tokenizer
    "Hello" None (Some 10%nat) false
  = ([ModelCall [72; 101; 108; 108; 111]%Z None; SampleCall 0 [0; 5; 0]],
     Raise AttributeError).
Proof. vm_compute. reflexivity. Qed.

(** With a budget of 0 the generation loop is still run for one step. *)
Lemma generate_budget_zero_runs_a_step :
  fst (generate (L := rational_mx) stub_model stub_clock stub_tokenizer
         "Hello" None (Some 0%nat) false)
  = [ModelCall [72; 101; 108; 108; 111]%Z None; SampleCall 0 [0; 5; 0]].
Proof. vm_compute. reflexivity. Qed.

(** C3 as stated fails: with a prompt of two tokens, the second step of the
    generation loop calls the model with one token, not with three. *)
Lemma full_sequence_counterexample :
  let prompt := [72; 105]%Z in
  ~ (forall n ev items g,
       take (L := rational_mx) stub_model stub_clock n
         (generate_step nat prompt (Some 0)) = (ev, Ok (items, g)) ->
       forall k, (1 <= k <= n)%nat ->
         length (nth (k - 1) (model_inputs ev) []) = (length prompt + k - 1)%nat).
Proof.
  intros prompt H.
  specialize (H 2%nat _ _ _ eq_refl 2%nat ltac:(lia)).
  vm_compute in H. discriminate.
Qed.

(** C3 as amended, on three steps from a prompt of two tokens. *)
Lemma model_inputs_of_steps_witness :
  exists ev items g,
    take (L := rational_mx) stub_model stub_clock 3
      (generate_step nat [72; 105]%Z (Some 0)) = (ev, Ok (items, g)) /\
    model_inputs ev = [[72; 105]; [1]; [2]]%Z /\
    length items = 3%nat /\
    model_inputs ev = firstn 3 ([72; 105]%Z :: map snd items) /\
    Forall (fun it => length (snd it) = 1%nat) items /\
    forall k, (1 <= k < 3)%nat ->
      nth k (model_inputs ev) [] = nth (k - 1) (map snd items) [] /\
      length (nth k (model_inputs ev) []) = 1%nat.
Proof.
  eexists _, _, _.
  split; [vm_compute; reflexivity | ].
  split; [reflexivity | ].
  eapply (@model_inputs_of_steps rational_mx nat stub_model stub_clock
            [72; 105]%Z (Some 0) 3).
  vm_compute. reflexivity.
Defined.

(** C8 on an example: default budget, verbose. *)
Lemma driver_fails_on_first_item_witness :
  (1 <= default_max_tokens)%nat /\
  generate (L := rational_mx) stub_model stub_clock stub_tokenizer
    "Hi" (Some (1 # 2)) None true
  = ([ModelCall [72; 105]%Z None; SampleCall (1 # 2) [0; 5; 0]],
     Raise AttributeError).
Proof.
  split; [unfold default_max_tokens; lia | ].
  destruct (@driver_fails_on_first_item rational_mx nat stub_model stub_clock
              stub_tokenizer "Hi" (Some (1 # 2)) None true
              ltac:(unfold default_max_tokens; lia)) as [H _].
  eapply H. vm_compute. reflexivity.
Defined.

(** C9 on an example: with [temp] left to its default the sampler returns
    and the loop fails on the tuple; with [temp] 7.0 the sampler fails. *)
Lemma generate_cutoff_is_temp_witness :
  stub_model (encode stub_tokenizer "Hi") None = Ok ([[0; 5; 0]; [0; 5; 0]], 1%nat) /\
  last_position [[0; 5; 0]; [0; 5; 0]] = Ok [0; 5; 0] /\
  generate (L := rational_mx) stub_model stub_clock stub_tokenizer
    "Hi" None None false
  = ([ModelCall [72; 105]%Z None; SampleCall 0 [0; 5; 0]], Raise AttributeError) /\
  generate (L := rational_mx) stub_model stub_clock stub_tokenizer
    "Hi" (Some 7) None false
  = ([ModelCall [72; 105]%Z None; SampleCall 7 [0; 5; 0]], Raise IndexError).
Proof.
  split; [reflexivity | ]. split; [reflexivity | ].
  split.
  - destruct (@generate_cutoff_is_temp rational_mx nat stub_model stub_clock
                stub_tokenizer "Hi" None None false) as (_ & _ & H).
    destruct (H [[0; 5; 0]; [0; 5; 0]] 1%nat [0; 5; 0] eq_refl eq_refl)
      as (Hg & _ & _).
    rewrite Hg. vm_compute. reflexivity.
  - destruct (@generate_cutoff_is_temp rational_mx nat stub_model stub_clock
                stub_tokenizer "Hi" (Some 7) None false) as (_ & _ & H).
    destruct (H [[0; 5; 0]; [0; 5; 0]] 1%nat [0; 5; 0] eq_refl eq_refl)
      as (Hg & Hs & _).
    rewrite Hg, Hs by (vm_compute; reflexivity). reflexivity.
Defined.

(** C8 as stated fails: with a budget of 10, when the sampler fails on the
    first step (here with [temp] 7.0), or when the model does, nothing is
    yielded, the body of the loop is never entered, and [generate] ends
    with that failure, not with the AttributeError of [item]. *)
Lemma first_step_failure_counterexample :
  (1 <= 10)%nat /\
  generate (L := rational_mx) stub_model stub_clock stub_tokenizer
    "Hi" (Some 7) (Some 10%nat) false
  = ([ModelCall [72; 105]%Z None; SampleCall 7 [0; 5; 0]], Raise IndexError) /\
  generate (L := rational_mx) failing_model stub_clock stub_tokenizer
    "Hi" None (Some 10%nat) false
  = ([ModelCall [72; 105]%Z None], Raise (ExternalError "shape mismatch")) /\
  forall item g,
    snd (next (L := rational_mx) stub_model stub_clock
           (generate_step nat (encode stub_tokenizer "Hi") (Some 7)))
    <> Ok (item, g).
Proof.
  split; [lia | ]. split; [vm_compute; reflexivity | ].
  split; [vm_compute; reflexivity | ].
  intros item g H. vm_compute in H. discriminate.
Qed.

(** ** Claims about the loader *)

Module LoaderFacts.

Import Loader LoaderExamples.





(** A failure of the loop over the weight files is the failure of
    [mx.load] on one of them. *)
Lemma load_weights_raises (w : world) (files : list string)
    (weights : list (string * Z)) (e : exn) :
  load_weights w files weights = Raise e ->
  exists wf, In wf files /\ mx_load w wf = Raise e.
Proof.
  revert weights. induction files as [ | wf files IH]; intros weights; simpl.
  - discriminate.
  - destruct (mx_load w wf) as [tensors | e' | ] eqn:E; cbn [bind].
    + intros H. destruct (IH _ H) as (wf' & Hin & Hm).
      exists wf'. split; [right; exact Hin | exact Hm].
    + intros H. inversion H; subst. exists wf. split; [left; reflexivity | exact E].
    + discriminate.
Qed.

(** [load] on a path that resolved to [d]. *)
Lemma load_resolved (w : world) (path : string) (log : list access)
    (model_path : string) (d : model_dir) :
  get_model_path w path = (log, Ok (model_path, d)) ->
  snd (load w path) =
  match config_json d with
  | ConfigMissing => Raise (FileNotFoundError (config_not_found model_path))
  | ConfigFails e => Raise e
  | ConfigNotObject => Raise AttributeError
  | ConfigParsed cfg =>
      match safetensors d with
      | [] => Raise (FileNotFoundError (no_safetensors model_path))
      | _ :: _ =>
          weights <- load_weights w (safetensors d) [] ;;
          a <- _get_classes cfg ;;
          let l := {| loaded_arch := a;
                      loaded_quantization :=
                        match get "quantization" cfg with
                        | Some JNull | None => None
                        | Some q => Some q
                        end;
                      loaded_weights := weights |} in
          _ <- finish w l ;;
          Ok l
      end
  end.
Proof.
  intros H. unfold load. rewrite H.
  destruct (config_json d) as [ | e | | cfg]; try reflexivity.
  destruct (safetensors d) as [ | f fs]; reflexivity.
Qed.

Lemma load_log_resolved (w : world) (path : string) (log : list access)
    (model_path : string) (d : model_dir) :
  get_model_path w path = (log, Ok (model_path, d)) ->
  fst (load w path) =
  match config_json d with
  | ConfigParsed _ => log ++ [OpenConfig model_path; Glob model_path]
  | _ => log ++ [OpenConfig model_path]
  end.
Proof.
  intros H. unfold load. rewrite H.
  destruct (config_json d) as [ | e | | cfg]; try reflexivity.
  destruct (safetensors d) as [ | f fs]; reflexivity.
Qed.

Lemma get_model_path_log (w : world) (path : string) :
  fst (get_model_path w path) = [Exists path] \/
  fst (get_model_path w path) = [Exists path; Download path].
Proof.
  unfold get_model_path. destruct (local w path); [left | right]; reflexivity.
Qed.







End LoaderFacts.


(** * Further properties of the sampler *)

Section SamplerProperties.

Context {L : MxLib}.

(** What the loop of [sample] does on a vocabulary that is not empty. *)
Lemma widen_of_sample (cutoff : Q) (logits : list Q) :
  (0 < length logits)%nat ->
  let p := softmax logits in
  let t0 := rank_score p 0 in
  match widen cutoff p (ranking p) t0 (S (length p)) 1 with
  | Ok j =>
      (1 <= j < length logits)%nat /\ drop_lt cutoff p t0 j = false /\
      forall i, (1 <= i < j)%nat -> drop_lt cutoff p t0 i = true
  | Raise e =>
      e = IndexError /\
      forall i, (1 <= i < length logits)%nat -> drop_lt cutoff p t0 i = true
  | OutOfFuel => False
  end.
Proof.
  intros Hn p t0.
  assert (Hp : length p = length logits) by apply softmax_length.
  pose proof (@widen_result L cutoff p t0 (S (length p)) 1
                ltac:(lia) ltac:(lia)) as Hw.
  destruct (widen cutoff p (ranking p) t0 (S (length p)) 1) as [j | e | ].
  - rewrite <- Hp. exact Hw.
  - rewrite <- Hp. exact Hw.
  - exact Hw.
Qed.

(** X1. Whenever [sample] returns, the index it returns is an index of the
    vocabulary. *)
Theorem sample_returns_vocabulary_index
    (cutoff : Q) (seed : Z) (logits : list Q) (t0 : Q) (c : nat) :
  sample cutoff seed logits = Ok (t0, c) -> (c < length logits)%nat.
Proof.
  intros H.
  destruct (Nat.eq_dec (length logits) 0) as [E | E].
  - rewrite (sample_empty _ _ _ E) in H. discriminate.
  - rewrite sample_by_widen in H by lia.
    pose proof (@widen_of_sample cutoff logits ltac:(lia)) as Hw.
    cbv zeta in Hw.
    destruct (widen _ _ _ _ _ _) as [j | | ]; try discriminate.
    destruct Hw as (Hj & _ & _). inversion H; subst. clear H.
    rewrite <- (softmax_length logits). apply ranking_nth_lt.
    pose proof (@categorical_lt L seed (repeat (rank_score (softmax logits) j) j)
                  ltac:(destruct j; [lia | discriminate])) as Hc.
    rewrite repeat_length in Hc. rewrite softmax_length. lia.
Qed.

(** X2. [sample] always comes to an end, and the only way it fails is an
    index out of range. *)
Theorem sample_returns_or_index_error (cutoff : Q) (seed : Z) (logits : list Q) :
  (exists r, sample cutoff seed logits = Ok r) \/
  sample cutoff seed logits = Raise IndexError.
Proof.
  destruct (sample cutoff seed logits) as [r | e | ] eqn:E.
  - left. exists r. reflexivity.
  - right. rewrite (sample_raises _ _ _ E). reflexivity.
  - destruct (sample_total _ _ _ E).
Qed.

(** X3. [sample] returns exactly when some rank after the top one has a
    computed relative drop that reaches the cutoff; otherwise the loop runs
    past the last rank. *)
Theorem sample_returns_iff (cutoff : Q) (seed : Z) (logits : list Q) :
  let p := softmax logits in
  (exists r, sample cutoff seed logits = Ok r) <->
  (exists j, (1 <= j < length logits)%nat /\
             cutoff <= rel_drop (rank_score p j) (rank_score p 0)).
Proof.
  intros p.
  destruct (Nat.eq_dec (length logits) 0) as [E | E].
  - rewrite (sample_empty _ _ _ E). split.
    + intros [r H]. discriminate.
    + intros (j & Hj & _). lia.
  - rewrite sample_by_widen by lia.
    pose proof (@widen_of_sample cutoff logits ltac:(lia)) as Hw.
    cbv zeta in Hw. fold p in Hw |- *.
    destruct (widen _ _ _ _ _ _) as [j | e | ]; split.
    + intros _. exists j. destruct Hw as (Hj & Hstop & _).
      split; [exact Hj | apply Qltb_false, Hstop].
    + intros _. eexists. reflexivity.
    + intros [r H]. discriminate.
    + intros (j & Hj & Hdrop). destruct Hw as [_ Hall].
      apply Qltb_false in Hdrop. fold (drop_lt cutoff p (rank_score p 0) j) in Hdrop.
      rewrite (Hall j Hj) in Hdrop. discriminate.
    + destruct Hw.
    + destruct Hw.
Qed.

(** X4. The score that [sample] returns is the largest score of the
    vocabulary. *)
Theorem sample_score_is_maximum
    (cutoff : Q) (seed : Z) (logits : list Q) (t0 : Q) (c : nat) :
  sample cutoff seed logits = Ok (t0, c) ->
  let p := softmax logits in
  In t0 p /\ forall i, (i < length logits)%nat -> nth i p 0 <= t0.
Proof.
  intros H p.
  destruct (Nat.eq_dec (length logits) 0) as [E | E].
  - rewrite (sample_empty _ _ _ E) in H. discriminate.
  - rewrite sample_by_widen in H by lia. fold p in H.
    destruct (widen _ _ _ _ _ _) as [j | | ]; try discriminate.
    inversion H; subst. clear H.
    assert (Hp : length p = length logits) by apply softmax_length.
    split.
    + unfold rank_score. apply nth_In, ranking_nth_lt. lia.
    + intros i Hi. unfold rank_score. apply ranking_top. lia.
Qed.

(** X5. The token that [sample] returns is the top-ranked one or one whose
    computed relative drop from the top score is below the cutoff. *)
Theorem sample_within_cutoff
    (cutoff : Q) (seed : Z) (logits : list Q) (t0 : Q) (c : nat) :
  sample cutoff seed logits = Ok (t0, c) ->
  let p := softmax logits in
  c = nth 0 (ranking p) 0%nat \/ rel_drop (nth c p 0) t0 < cutoff.
Proof.
  intros H p.
  destruct (Nat.eq_dec (length logits) 0) as [E | E].
  - rewrite (sample_empty _ _ _ E) in H. discriminate.
  - rewrite sample_by_widen in H by lia.
    pose proof (@widen_of_sample cutoff logits ltac:(lia)) as Hw.
    cbv zeta in Hw. fold p in H, Hw.
    destruct (widen _ _ _ _ _ _) as [j | | ]; try discriminate.
    destruct Hw as (Hj & _ & Hall). inversion H; subst. clear H.
    pose proof (@categorical_lt L seed (repeat (rank_score p j) j)
                  ltac:(destruct j; [lia | discriminate])) as Hc.
    rewrite repeat_length in Hc.
    destruct (categorical seed (repeat (rank_score p j) j)) as [ | idx] eqn:Ei.
    + left. reflexivity.
    + right. apply Qltb_true. apply (Hall (S idx)). lia.
Qed.

(** X6. Lowering the cutoff never widens the accepted set: if the loop stops
    at rank [j2] under a cutoff, it stops under any smaller cutoff, at a
    rank that is not larger. *)
Theorem widen_monotone (cutoff1 cutoff2 : Q) (logits : list Q) (j2 : nat) :
  cutoff1 <= cutoff2 ->
  let p := softmax logits in
  let t0 := rank_score p 0 in
  widen cutoff2 p (ranking p) t0 (S (length p)) 1 = Ok j2 ->
  exists j1, widen cutoff1 p (ranking p) t0 (S (length p)) 1 = Ok j1 /\
             (j1 <= j2)%nat.
Proof.
  intros Hc p t0 H2.
  assert (Hn : (0 < length logits)%nat).
  { apply widen_Ok_lt in H2. unfold p in H2. rewrite softmax_length in H2. lia. }
  pose proof (@widen_of_sample cutoff2 logits Hn) as Hw2.
  pose proof (@widen_of_sample cutoff1 logits Hn) as Hw1.
  cbv zeta in Hw1, Hw2. fold p in Hw1, Hw2. fold t0 in Hw1, Hw2.
  rewrite H2 in Hw2. destruct Hw2 as (Hj2 & Hstop2 & _).
  assert (Hstop1 : drop_lt cutoff1 p t0 j2 = false).
  { apply Qltb_false. apply Qltb_false in Hstop2.
    eapply Qle_trans; [exact Hc | exact Hstop2]. }
  destruct (widen cutoff1 p (ranking p) t0 (S (length p)) 1) as [j1 | e | ].
  - exists j1. split; [reflexivity | ].
    destruct Hw1 as (Hj1 & _ & Hall).
    destruct (Nat.le_gt_cases j1 j2) as [Hle | Hgt]; [exact Hle | ].
    rewrite (Hall j2 ltac:(lia)) in Hstop1. discriminate.
  - destruct Hw1 as [_ Hall]. rewrite (Hall j2 Hj2) in Hstop1. discriminate.
  - destruct Hw1.
Qed.

(** X7. With a cutoff that is not positive and at least two tokens, the
    loop does not widen and [sample] returns the top-ranked token with its
    score, whatever the draw. *)
Theorem sample_nonpositive_cutoff
    (cutoff : Q) (seed : Z) (logits : list Q) :
  cutoff <= 0 -> (2 <= length logits)%nat ->
  let p := softmax logits in
  let top := nth 0 (ranking p) 0%nat in
  sample cutoff seed logits = Ok (nth top p 0, top) /\
  (top < length logits)%nat /\
  forall i, (i < length logits)%nat -> nth i p 0 <= nth top p 0.
Proof.
  intros Hc Hn p top.
  assert (Hp : length p = length logits) by apply softmax_length.
  assert (Hw : widen cutoff p (ranking p) (rank_score p 0) (S (length p)) 1
               = Ok 1%nat).
  { cbn [widen]. rewrite widen_cond_lt by lia. cbn [bind].
    assert (Hd : drop_lt cutoff p (rank_score p 0) 1 = false).
    { apply Qltb_false. eapply Qle_trans; [exact Hc | ].
      apply rel_drop_ge_0; unfold p;
        [apply rank_score_nonneg | apply rank_score_le_top]; lia. }
    rewrite Hd. reflexivity. }
  split; [ | split].
  - rewrite sample_by_widen by lia. fold p. rewrite Hw.
    pose proof (@categorical_lt L seed (repeat (rank_score p 1) 1)
                  ltac:(discriminate)) as Hcat.
    simpl in Hcat.
    replace (categorical seed (repeat (rank_score p 1) 1)) with 0%nat
      by (simpl; lia).
    reflexivity.
  - rewrite <- Hp. apply ranking_nth_lt. lia.
  - intros i Hi. apply ranking_top. lia.
Qed.

Lemma sorted_nth_le (p : list Q) (l : list nat) :
  StronglySorted (score_le p) l ->
  forall a b, (a <= b < length l)%nat ->
    score_le p (nth a l 0%nat) (nth b l 0%nat).
Proof.
  induction 1 as [ | k l Hl IH Hk]; intros a b Hab; simpl in Hab; [lia | ].
  destruct a as [ | a]; destruct b as [ | b]; try lia; simpl.
  - apply Qle_refl.
  - rewrite Forall_forall in Hk. apply Hk, nth_In. lia.
  - apply IH. lia.
Qed.

(** X8. The ranking that [sample] walks is a permutation of the vocabulary
    indices in which scores never increase. *)
Theorem ranking_is_descending_permutation (np_logits : list Q) :
  let sorted_indices := rev (argsort np_logits) in
  Permutation sorted_indices (seq 0 (length np_logits)) /\
  forall i j, (i <= j < length np_logits)%nat ->
    nth (nth j sorted_indices 0%nat) np_logits 0
    <= nth (nth i sorted_indices 0%nat) np_logits 0.
Proof.
  intros sorted_indices. split.
  - unfold sorted_indices. rewrite <- Permutation_rev. apply argsort_perm.
  - intros i j Hij.
    assert (Hlen : length (argsort np_logits) = length np_logits)
      by apply argsort_length.
    unfold sorted_indices.
    rewrite !rev_nth by lia. rewrite Hlen.
    apply (sorted_nth_le (argsort_sorted np_logits)). lia.
Qed.

End SamplerProperties.

(** * Further properties of the generation loop *)

Section GenerationProperties.

Context {L : MxLib}.
Variable Cache : Type.
Variable model : list Z -> option Cache -> outcome (list (list Q) * Cache).
Variable clock : nat -> Z.

Lemma model_calls_app (a b : list (event Cache)) :
  model_calls (a ++ b) = model_calls a ++ model_calls b.
Proof.
  induction a as [ | [input cache | c logits] a IH]; simpl; congruence.
Qed.

(** [n + 1] items are [n] items and one more turn. *)
Lemma take_S_Ok (n : nat) (g g1 : generator Cache)
    (ev : list (event Cache)) (items : list (Q * list Z)) :
  take model clock n g = (ev, Ok (items, g1)) ->
  take model clock (S n) g =
  (ev ++ fst (next model clock g1),
   match snd (next model clock g1) with
   | Ok (it, g2) => Ok (items ++ [it], g2)
   | Raise e => Raise e
   | OutOfFuel => OutOfFuel
   end).
Proof.
  revert g ev items. induction n as [ | n IH]; intros g ev items H.
  - simpl in H. inversion H; subst. simpl.
    destruct (next model clock g1) as [ev1 [[it g2] | e | ]]; simpl;
      rewrite ?app_nil_r; reflexivity.
  - change (take model clock (S n) g) with
      (match next model clock g with
       | (ev, Ok (item, g')) =>
           let '(ev', r) := take model clock n g' in
           (ev ++ ev', '(items, g'') <- r ;; Ok (item :: items, g''))
       | (ev, Raise e) => (ev, Raise e)
       | (ev, OutOfFuel) => (ev, OutOfFuel)
       end) in H.
    change (take model clock (S (S n)) g) with
      (match next model clock g with
       | (ev, Ok (item, g')) =>
           let '(ev', r) := take model clock (S n) g' in
           (ev ++ ev', '(items, g'') <- r ;; Ok (item :: items, g''))
       | (ev, Raise e) => (ev, Raise e)
       | (ev, OutOfFuel) => (ev, OutOfFuel)
       end).
    destruct (next model clock g) as [ev0 [[it0 g0] | e | ]];
      try (inversion H; fail).
    destruct (take model clock n g0) as [ev' r] eqn:Et.
    destruct r as [[items' g'] | e | ]; simpl in H; inversion H; subst.
    rewrite (IH _ _ _ Et).
    destruct (next model clock g1) as [ev1 [[it g2] | e | ]]; simpl;
      rewrite app_assoc; reflexivity.
Qed.

(** What [n] yielded items leave behind, from any suspended generator. *)
Lemma take_state (n : nat) (g g' : generator Cache)
    (ev : list (event Cache)) (items : list (Q * list Z)) :
  take model clock n g = (ev, Ok (items, g')) ->
  cache_chain model (gen_cache g) (model_calls ev) (gen_cache g') /\
  length (model_calls ev) = n /\
  sample_cutoffs ev = repeat (gen_cutoff g) n /\
  gen_reads g' = (gen_reads g + 2 * n)%nat /\
  gen_cutoff g' = gen_cutoff g.
Proof.
  revert g ev items. induction n as [ | n IH]; intros g ev items; simpl.
  - intros H. inversion H; subst. simpl. repeat split; lia.
  - destruct (next model clock g) as [ev1 [[it g1] | e | ]] eqn:En;
      try (intros H; inversion H; fail).
    destruct (take model clock n g1) as [ev2 r] eqn:Et.
    destruct r as [[items2 g2] | e | ]; simpl;
      intros H; inversion H; subst.
    destruct (IH _ _ _ Et) as (Hchain & Hlen & Hcut & Hreads & Hc).
    assert (Hr1 : gen_reads g1 = (2 + gen_reads g)%nat).
    { unfold next in En.
      destruct (model (gen_y g) (gen_cache g)) as [[lg ch] | | ];
        try (inversion En; fail).
      destruct (last_position lg) as [row | | ]; try (inversion En; fail).
      destruct (sample (gen_cutoff g) (clock (S (gen_reads g))) row)
        as [[t0 c] | | ]; simpl in En; inversion En; subst. reflexivity. }
    destruct (next_Ok _ _ _ En)
      as (logits & cache & row & t0 & c & Hm & _ & _ & -> & _ & _ & Hc1 & Hcut1).
    simpl. rewrite Hc1 in Hchain. rewrite Hcut1 in Hcut, Hc.
    repeat split.
    + exists logits, cache. split; assumption.
    + lia.
    + f_equal. exact Hcut.
    + lia.
    + exact Hc.
Qed.

(** X9. The cache is handed on from call to call: the first call of the
    model passes no cache, every later call passes the cache that the call
    before it returned, and the suspended generator holds the one returned
    last. *)
Theorem cache_is_threaded
    (prompt : list Z) (cutoff : option Q) (n : nat)
    (ev : list (event Cache)) (items : list (Q * list Z))
    (g : generator Cache) :
  take model clock n (generate_step Cache prompt cutoff) = (ev, Ok (items, g)) ->
  cache_chain model None (model_calls ev) (gen_cache g).
Proof.
  intros H. apply take_state in H. apply H.
Qed.

(** What [n] yielded items are, from any suspended generator. *)
Lemma take_sampled (n : nat) (g g' : generator Cache)
    (ev : list (event Cache)) (items : list (Q * list Z)) :
  take model clock n g = (ev, Ok (items, g')) ->
  sampled_steps model clock (gen_cutoff g) (gen_reads g) (gen_y g)
    (gen_cache g) items /\
  length items = n.
Proof.
  revert g ev items. induction n as [ | n IH]; intros g ev items; simpl.
  - intros H. inversion H; subst. simpl. split; [exact I | reflexivity].
  - destruct (next model clock g) as [ev1 [[it g1] | e | ]] eqn:En;
      try (intros H; inversion H; fail).
    destruct (take model clock n g1) as [ev2 r] eqn:Et.
    destruct r as [[items2 g2] | e | ]; simpl;
      intros H; inversion H; subst.
    destruct (IH _ _ _ Et) as (Hchain & Hlen).
    assert (Hr1 : gen_reads g1 = (2 + gen_reads g)%nat).
    { unfold next in En.
      destruct (model (gen_y g) (gen_cache g)) as [[lg ch] | | ];
        try (inversion En; fail).
      destruct (last_position lg) as [row | | ]; try (inversion En; fail).
      destruct (sample (gen_cutoff g) (clock (S (gen_reads g))) row)
        as [[t0 c] | | ]; simpl in En; inversion En; subst. reflexivity. }
    destruct (next_Ok _ _ _ En)
      as (logits & cache & row & t0 & c & Hm & Hrow & Hs & _ & -> & Hy1 & Hc1 & Hcut1).
    rewrite Hy1, Hc1, Hcut1, Hr1 in Hchain.
    split; [ | simpl; congruence].
    simpl. exists logits, cache, row, c. repeat split; assumption.
Qed.

(** X10. Every item that the generation loop yields is what [sample]
    returned at its step, called with the cutoff that [generate_step] was
    given on the last-position logits of that step's call of the model, and
    seeded with the second clock reading of that step; [n] items take
    exactly [n] calls of the model. *)
Theorem steps_are_accounted
    (prompt : list Z) (cutoff : Q) (n : nat)
    (ev : list (event Cache)) (items : list (Q * list Z))
    (g : generator Cache) :
  take model clock n (generate_step Cache prompt (Some cutoff))
  = (ev, Ok (items, g)) ->
  sampled_steps model clock cutoff 0 prompt None items /\
  length items = n /\
  length (model_calls ev) = n.
Proof.
  intros H.
  destruct (take_sampled _ _ H) as (Hs & Hlen).
  destruct (take_state _ _ H) as (_ & Hcalls & _).
  repeat split; assumption.
Qed.

(** X11. A failure of the model at some step ends the generation with that
    very failure: after the events of the steps before, the failed call is
    the last event, with no call of the sampler and no second attempt. *)
Theorem model_failure_propagates
    (n : nat) (g0 g : generator Cache) (ev : list (event Cache))
    (items : list (Q * list Z)) (e : exn) :
  take model clock n g0 = (ev, Ok (items, g)) ->
  model (gen_y g) (gen_cache g) = Raise e ->
  take model clock (S n) g0
  = (ev ++ [ModelCall (gen_y g) (gen_cache g)], Raise e).
Proof.
  intros H Hm. rewrite (take_S_Ok _ _ H).
  unfold next. rewrite Hm. reflexivity.
Qed.

(** X12. When every row of logits that the model returns has [V] entries,
    every yielded item is a single token id between 0 and [V - 1]. *)
Theorem yielded_tokens_in_vocabulary
    (V : nat) (n : nat) (g0 g : generator Cache) (ev : list (event Cache))
    (items : list (Q * list Z)) :
  (forall input cache logits cache',
     model input cache = Ok (logits, cache') ->
     Forall (fun row => length row = V) logits) ->
  take model clock n g0 = (ev, Ok (items, g)) ->
  Forall (fun it => exists c, snd it = [c] /\ (0 <= c < Z.of_nat V)%Z) items.
Proof.
  intros HV. revert g0 ev items. induction n as [ | n IH]; intros g0 ev items; simpl.
  - intros H. inversion H; subst. constructor.
  - destruct (next model clock g0) as [ev1 [[it g1] | e | ]] eqn:En;
      try (intros H; inversion H; fail).
    destruct (take model clock n g1) as [ev2 r] eqn:Et.
    destruct r as [[items2 g2] | e | ]; simpl;
      intros H; inversion H; subst.
    constructor; [ | exact (IH _ _ _ Et)].
    destruct (next_Ok _ _ _ En)
      as (logits & cache & row & t0 & c & Hm & Hrow & Hs & _ & -> & _).
    exists (Z.of_nat c). split; [reflexivity | ].
    apply sample_in_range in Hs.
    assert (Hlen : length row = V).
    { apply HV in Hm. rewrite Forall_forall in Hm. apply Hm.
      unfold last_position in Hrow.
      destruct (rev logits) as [ | r rs] eqn:Er; inversion Hrow; subst.
      apply in_rev. rewrite Er. left. reflexivity. }
    lia.
Qed.

End GenerationProperties.

(** * Further properties of the driver *)

Section DriverProperties.

Context {L : MxLib}.
Variable Cache : Type.
Variable model : list Z -> option Cache -> outcome (list (list Q) * Cache).
Variable clock : nat -> Z.
Variable tok : tokenizer.

(** X13. A failure of the first generation step, be it the model's or the
    sampler's, reaches the caller of [generate] unchanged, whatever the
    budget, a budget of 0 included. *)
Theorem generate_propagates_step_failure
    (prompt : string) (temp : option Q) (max_tokens : option nat)
    (verbose : bool) (ev : list (event Cache)) (e : exn) :
  next model clock
    (generate_step Cache (encode tok prompt)
       (Some match temp with Some t => t | None => 0 end))
  = (ev, Raise e) ->
  generate model clock tok prompt temp max_tokens verbose = (ev, Raise e).
Proof.
  intros H. unfold generate.
  change default_temp with 0.
  destruct (match max_tokens with Some m => m | None => default_max_tokens end).
  - rewrite for_loop_O, H. reflexivity.
  - rewrite for_loop_S, H. reflexivity.
Qed.

(** X14. Whatever its arguments, [generate] calls the model exactly once:
    with the encoded prompt and no cache. *)
Theorem generate_calls_model_once
    (prompt : string) (temp : option Q) (max_tokens : option nat)
    (verbose : bool) :
  model_calls (fst (generate model clock tok prompt temp max_tokens verbose))
  = [(encode tok prompt, None)].
Proof.
  rewrite generate_events. unfold next. simpl.
  destruct (model (encode tok prompt) None) as [[logits cache] | e | ];
    try reflexivity.
  destruct (last_position logits) as [row | e | ]; reflexivity.
Qed.

(** X15. With a budget of 0, when the first generation step yields,
    [generate] returns the decoding of no token at all, after one call of
    the model and one of the sampler; in verbose mode it prints that text
    and a newline. *)
Theorem generate_budget_zero
    (prompt : string) (temp : option Q) (verbose : bool)
    (ev : list (event Cache)) (it : Q * list Z) (g : generator Cache) :
  next model clock
    (generate_step Cache (encode tok prompt)
       (Some match temp with Some t => t | None => 0 end))
  = (ev, Ok (it, g)) ->
  generate model clock tok prompt temp (Some 0%nat) verbose
  = (ev, Ok (decode tok [],
             if verbose then (decode tok [] ++ newline)%string
             else EmptyString)).
Proof.
  intros H. unfold generate. change default_temp with 0.
  rewrite for_loop_O, H. simpl. rewrite slice_from_0. reflexivity.
Qed.

End DriverProperties.

(** * Further properties of the loader *)

Module LoaderProperties.

Import Loader.

Lemma get_MODEL_MAPPING (s : string) :
  get s MODEL_MAPPING =
  if String.eqb "llama" s then Some llama
  else if String.eqb "mistral" s then Some llama
  else if String.eqb "phi" s then Some phi2
  else None.
Proof. reflexivity. Qed.

(** X16. [_get_classes] returns exactly on the tags "llama", "mistral" and
    "phi"; "mistral" is served by the llama module. *)
Theorem get_classes_supported (cfg : config) (a : arch) :
  _get_classes cfg = Ok a <->
  exists s, get "model_type" cfg = Some (JStr s) /\
            (s = "llama"%string /\ a = llama \/
             s = "mistral"%string /\ a = llama \/
             s = "phi"%string /\ a = phi2).
Proof.
  unfold _get_classes.
  destruct (get "model_type" cfg) as [[s | repr | b | | | fields] | ];
    try (split; [discriminate | intros (s & Hs & _); discriminate]).
  rewrite get_MODEL_MAPPING.
  destruct (String.eqb_spec "llama" s) as [<- | Hl].
  { split.
    - intros H. inversion H; subst. exists "llama"%string. auto.
    - intros (s & Hs & [[-> ->] | [[-> ->] | [-> ->]]]);
        inversion Hs; reflexivity. }
  destruct (String.eqb_spec "mistral" s) as [<- | Hm].
  { split.
    - intros H. inversion H; subst. exists "mistral"%string. auto.
    - intros (s & Hs & [[-> ->] | [[-> ->] | [-> ->]]]);
        inversion Hs; reflexivity. }
  destruct (String.eqb_spec "phi" s) as [<- | Hp].
  { split.
    - intros H. inversion H; subst. exists "phi"%string. auto.
    - intros (s & Hs & [[-> ->] | [[-> ->] | [-> ->]]]);
        inversion Hs; reflexivity. }
  split; [discriminate | ].
  intros (s' & Hs & [[-> ->] | [[-> ->] | [-> ->]]]);
    inversion Hs; subst; congruence.
Qed.

(** X17. Once the model path is resolved, and provided that reading the
    config file, [mx.load] and the construction of the model do not
    themselves fail with a KeyError: [load] raises KeyError exactly when
    the config parses to an object that has no "model_type" key, a weight
    file is found and every weight file loads. *)
Theorem load_key_error (w : world) (path : string) (log : list access)
    (model_path : string) (d : model_dir) :
  get_model_path w path = (log, Ok (model_path, d)) ->
  config_json d <> ConfigFails KeyError ->
  (forall wf, mx_load w wf <> Raise KeyError) ->
  (forall l, finish w l <> Raise KeyError) ->
  (snd (load w path) = Raise KeyError <->
   exists cfg weights,
     config_json d = ConfigParsed cfg /\ safetensors d <> [] /\
     load_weights w (safetensors d) [] = Ok weights /\
     get "model_type" cfg = None).
Proof.
  intros H Hcfg Hload Hfin. rewrite (LoaderFacts.load_resolved _ _ H).
  destruct (config_json d) as [ | e | | cfg].
  - split; [discriminate | intros (c & ws & Hc & _); discriminate].
  - split; [ | intros (c & ws & Hc & _); discriminate].
    intros E. inversion E; subst e. congruence.
  - split; [discriminate | intros (c & ws & Hc & _); discriminate].
  - destruct (safetensors d) as [ | f fs] eqn:Es.
    + split; [discriminate | intros (c & ws & _ & Hne & _); congruence].
    + destruct (load_weights w (f :: fs) []) as [weights | e | ] eqn:Ew;
        cbn [bind].
      * unfold _get_classes.
        destruct (get "model_type" cfg) as [[s | repr | b | | | fields] | ] eqn:Eg;
          cbn [bind];
          try (split; [discriminate | ];
               intros (c & ws & Hc & _ & _ & Hg); inversion Hc; subst;
               congruence).
        -- destruct (get s MODEL_MAPPING) as [a | ]; cbn [bind].
           ++ cbv zeta. destruct (finish w _) as [[] | e | ] eqn:Ef; cbn [bind];
                (split; [ | intros (c & ws & Hc & _ & _ & Hg);
                            inversion Hc; subst; congruence]);
                try discriminate.
              intros E. inversion E; subst e. destruct (Hfin _ Ef).
           ++ split; [discriminate | ].
              intros (c & ws & Hc & _ & _ & Hg); inversion Hc; subst; congruence.
        -- split; [ | reflexivity].
           intros _. exists cfg, weights.
           repeat split; [discriminate | exact Eg].
      * split.
        -- intros E. inversion E; subst e.
           destruct (LoaderFacts.load_weights_raises _ _ _ Ew) as (wf & _ & Hm).
           destruct (Hload _ Hm).
        -- intros (c & ws & _ & _ & Hw & _). discriminate.
      * split; [discriminate | intros (c & ws & _ & _ & Hw & _); discriminate].
Qed.

(** X18. Once the model path is resolved, [load] returns exactly when the
    config parses to an object, at least one weight file is found, every
    weight file loads, the tag is supported and the construction of the
    model and of the tokenizer succeeds; what it returns has the
    architecture of the tag, the merged weights, and the "quantization"
    entry of the config unless it is missing or null. *)
Theorem load_success (w : world) (path : string) (log : list access)
    (model_path : string) (d : model_dir) (l : loaded) :
  get_model_path w path = (log, Ok (model_path, d)) ->
  (snd (load w path) = Ok l <->
   exists cfg, config_json d = ConfigParsed cfg /\ safetensors d <> [] /\
               load_weights w (safetensors d) [] = Ok (loaded_weights l) /\
               _get_classes cfg = Ok (loaded_arch l) /\
               loaded_quantization l =
               match get "quantization" cfg with
               | Some JNull | None => None
               | Some q => Some q
               end /\
               finish w l = Ok tt).
Proof.
  intros H. rewrite (LoaderFacts.load_resolved _ _ H).
  destruct (config_json d) as [ | e | | cfg];
    try (split; [discriminate | intros (c & Hc & _); discriminate]).
  destruct (safetensors d) as [ | f fs] eqn:Es;
    [split; [discriminate | intros (c & _ & Hne & _); congruence] | ].
  split.
  - intros E. exists cfg.
    destruct (load_weights w (f :: fs) []) as [weights | e | ];
      cbn [bind] in E; try discriminate.
    destruct (_get_classes cfg) as [a | e | ]; cbn [bind] in E;
      try discriminate.
    cbv zeta in E.
    destruct (finish w _) as [[] | e | ] eqn:Ef; cbn [bind] in E;
      inversion E; subst l.
    repeat split; try assumption. discriminate.
  - intros (c & Hc & _ & Hw & Ha & Hq & Hf). inversion Hc; subst c.
    rewrite Hw, Ha. cbn [bind]. cbv zeta. rewrite <- Hq.
    destruct l as [la lq lw].
    cbn [loaded_arch loaded_weights loaded_quantization] in *.
    rewrite Hf. reflexivity.
Qed.

(** X19. [load] downloads from the hub exactly when the path does not exist
    locally, and then it asks for the repository of that name. *)
Theorem load_downloads_iff_not_local (w : world) (path repo : string) :
  In (Download repo) (fst (load w path)) <-> local w path = None /\ repo = path.
Proof.
  destruct (get_model_path w path) as [log r] eqn:E.
  assert (Hlog : In (Download repo) log <-> local w path = None /\ repo = path).
  { unfold get_model_path in E. destruct (local w path) as [d | ];
      inversion E; subst; simpl; split.
    - intros [H | []]. discriminate.
    - intros [H _]. discriminate.
    - intros [H | [H | []]]; [discriminate | ].
      inversion H. split; reflexivity.
    - intros [_ ->]. right. left. reflexivity. }
  destruct r as [[mp d] | e | ].
  - rewrite (LoaderFacts.load_log_resolved _ _ E), <- Hlog.
    destruct (config_json d); rewrite in_app_iff; simpl;
      (split; [ | intros Hin; left; exact Hin]);
      intros [Hin | Hin]; try exact Hin;
      repeat (destruct Hin as [Hin | Hin]; try discriminate); destruct Hin.
  - unfold load. rewrite E. exact Hlog.
  - unfold load. rewrite E. exact Hlog.
Qed.

(** X20. When the path does not exist locally and the download fails, [load]
    fails with the error of the download, and has opened no file. *)
Theorem load_download_failure (w : world) (path : string) (e : exn) :
  local w path = None -> hub w path = Raise e ->
  load w path = ([Exists path; Download path], Raise e).
Proof.
  intros Hl Hh. unfold load, get_model_path. rewrite Hl, Hh. reflexivity.
Qed.

(** X21. Once the model path is resolved, [load] looks for weight files
    exactly when [config.json] could be opened and parsed to an object,
    and it looks in the directory the path resolved to. *)
Theorem load_globs_iff_config (w : world) (path : string) (log : list access)
    (model_path : string) (d : model_dir) (dir : string) :
  get_model_path w path = (log, Ok (model_path, d)) ->
  (In (Glob dir) (fst (load w path)) <->
   dir = model_path /\ exists cfg, config_json d = ConfigParsed cfg).
Proof.
  intros H. rewrite (LoaderFacts.load_log_resolved _ _ H).
  assert (Hlog : ~ In (Glob dir) log).
  { pose proof (LoaderFacts.get_model_path_log w path) as Hl.
    rewrite H in Hl. simpl in Hl.
    destruct Hl as [-> | ->]; simpl;
      intros Hin; repeat (destruct Hin as [Hin | Hin]; try discriminate);
      destruct Hin. }
  destruct (config_json d) as [ | e | | cfg]; rewrite in_app_iff; simpl; split;
    try (intros [Hin | [Hin | []]]; [destruct (Hlog Hin) | discriminate]);
    try (intros [_ [cfg Hc]]; discriminate).
  - intros [Hin | [Hin | [Hin | []]]]; try discriminate.
    + destruct (Hlog Hin).
    + inversion Hin; subst. split; [reflexivity | eexists; reflexivity].
  - intros [-> _]. right. right. left. reflexivity.
Qed.

(** X22. When [_get_classes] raises ValueError, the message is
    "Model type <tag> not supported." for the "model_type" value of the
    config, written as [str] writes it. *)
Theorem get_classes_value_error_message (cfg : config) (msg : string) :
  _get_classes cfg = Raise (ValueError msg) ->
  exists t,
    get "model_type" cfg = Some t /\
    msg = ("Model type " ++ show t ++ " not supported.")%string.
Proof.
  unfold _get_classes.
  destruct (get "model_type" cfg) as [[s | repr | b | | | fields] | ] eqn:Eg;
    try discriminate;
    try (intros E; inversion E; subst; eexists; split; reflexivity).
  destruct (get s MODEL_MAPPING); [discriminate | ].
  intros E. inversion E; subst. eexists. split; reflexivity.
Qed.

End LoaderProperties.

(** * Merging the weight files *)

Module WeightsProperties.

Import Loader.

Lemma get_app {V : Type} (k : string) (a b : list (string * V)) :
  get k (a ++ b) = match get k a with Some v => Some v | None => get k b end.
Proof.
  induction a as [ | [k' v] a IH]; simpl; [reflexivity | ].
  destruct (String.eqb k' k); [reflexivity | exact IH].
Qed.

Lemma get_None_iff {V : Type} (k : string) (d : list (string * V)) :
  get k d = None <-> ~ In k (map fst d).
Proof.
  induction d as [ | [k' v] d IH]; simpl.
  - split; [intros _ [] | reflexivity].
  - destruct (String.eqb_spec k' k) as [-> | Hne].
    + split; [discriminate | ]. intros H. exfalso. apply H. left. reflexivity.
    + rewrite IH. split.
      * intros H [E | Hin]; [congruence | exact (H Hin)].
      * intros H Hin. apply H. right. exact Hin.
Qed.

Lemma get_rev_None {V : Type} (k : string) (d : list (string * V)) :
  get k (rev d) = None <-> get k d = None.
Proof.
  rewrite !get_None_iff, map_rev. split; intros H Hin; apply H.
  - apply -> in_rev. exact Hin.
  - apply <- in_rev. exact Hin.
Qed.

(** In a dict, where no key comes twice, the items can be read in either
    order. *)
Lemma get_rev_NoDup {V : Type} (k : string) (d : list (string * V)) :
  NoDup (map fst d) -> get k (rev d) = get k d.
Proof.
  induction d as [ | [k' v] d IH]; intros Hnd; [reflexivity | ].
  inversion Hnd as [ | ? ? Hnotin Hnd']; subst.
  simpl. rewrite get_app, (IH Hnd'). simpl.
  destruct (String.eqb_spec k' k) as [-> | Hne].
  - apply get_None_iff in Hnotin. rewrite Hnotin. reflexivity.
  - destruct (get k d); reflexivity.
Qed.

Lemma update_rev {V : Type} (d other : list (string * V)) :
  update d other = rev other ++ d.
Proof.
  unfold update. revert d. induction other as [ | kv other IH]; intros d; simpl.
  - reflexivity.
  - rewrite IH, <- app_assoc. reflexivity.
Qed.

(** X23. When the weight files are merged, a key of the file loaded last has
    the value of that file, and every other key keeps the value merged from
    the files before: on a shared key the last file wins. *)
Theorem merge_weights_last_file_wins {V : Type}
    (mx_load : string -> list (string * V)) (files : list string)
    (f : string) (k : string) :
  NoDup (map fst (mx_load f)) ->
  get k (merge_weights mx_load (files ++ [f])) =
  match get k (mx_load f) with
  | Some v => Some v
  | None => get k (merge_weights mx_load files)
  end.
Proof.
  intros Hnd. unfold merge_weights. rewrite fold_left_app. simpl.
  rewrite update_rev, get_app, (@get_rev_NoDup V k _ Hnd). reflexivity.
Qed.

(** X24. A key is missing from the merged weights exactly when no weight
    file has it. *)
Theorem merge_weights_missing_key {V : Type}
    (mx_load : string -> list (string * V)) (files : list string) (k : string) :
  get k (merge_weights mx_load files) = None <->
  forall f, In f files -> get k (mx_load f) = None.
Proof.
  induction files as [ | f files IH] using rev_ind.
  - simpl. split; [intros _ f [] | reflexivity].
  - unfold merge_weights in *. rewrite fold_left_app. simpl.
    rewrite update_rev, get_app. split.
    + intros H f' Hin.
      destruct (get k (rev (mx_load f))) eqn:E; [discriminate | ].
      apply in_app_or in Hin. destruct Hin as [Hin | [<- | []]].
      * apply IH; assumption.
      * apply get_rev_None, E.
    + intros H.
      assert (E : get k (rev (mx_load f)) = None).
      { apply get_rev_None, H, in_or_app. right. left. reflexivity. }
      rewrite E. apply IH. intros f' Hin. apply H, in_or_app. left. exact Hin.
Qed.

(** When every weight file loads, the loop of [load] over the weight files
    gives the merged weights. *)
Lemma load_weights_merge (w : world) (contents : string -> list (string * Z))
    (files : list string) :
  (forall wf, In wf files -> mx_load w wf = Ok (contents wf)) ->
  load_weights w files [] = Ok (merge_weights contents files).
Proof.
  unfold merge_weights. generalize (@nil (string * Z)) as weights.
  induction files as [ | wf files IH]; intros weights H; simpl.
  - reflexivity.
  - rewrite (H wf) by (left; reflexivity). cbn [bind].
    apply IH. intros wf' Hin. apply H. right. exact Hin.
Qed.

End WeightsProperties.

(** * The further properties on examples *)

Lemma sample_returns_vocabulary_index_witness :
  sample (L := rational_mx) (1 # 2) 5 [1; 1; 0] = Ok (2 # 5, 0%nat) /\
  (0 < length [1; 1; 0])%nat.
Proof.
  split; [vm_compute; reflexivity | ].
  apply (@sample_returns_vocabulary_index rational_mx (1 # 2) 5%Z [1; 1; 0] (2 # 5)).
  vm_compute. reflexivity.
Defined.

Lemma sample_score_is_maximum_witness :
  sample (L := rational_mx) (1 # 2) 5 [1; 1; 0] = Ok (2 # 5, 0%nat) /\
  In (2 # 5) (softmax (MxLib := rational_mx) [1; 1; 0]) /\
  forall i, (i < 3)%nat ->
    nth i (softmax (MxLib := rational_mx) [1; 1; 0]) 0 <= 2 # 5.
Proof.
  split; [vm_compute; reflexivity | ].
  apply (@sample_score_is_maximum rational_mx (1 # 2) 5%Z [1; 1; 0] (2 # 5) 0).
  vm_compute. reflexivity.
Defined.

Lemma sample_within_cutoff_witness :
  sample (L := rational_mx) (1 # 2) 5 [1; 1; 0] = Ok (2 # 5, 0%nat) /\
  (0%nat = nth 0 (ranking (softmax (MxLib := rational_mx) [1; 1; 0])) 0%nat \/
   rel_drop (MxLib := rational_mx)
     (nth 0 (softmax (MxLib := rational_mx) [1; 1; 0]) 0) (2 # 5) < 1 # 2).
Proof.
  split; [vm_compute; reflexivity | ].
  apply (@sample_within_cutoff rational_mx (1 # 2) 5%Z [1; 1; 0] (2 # 5) 0).
  vm_compute. reflexivity.
Defined.

Lemma widen_monotone_witness :
  let p := softmax (MxLib := rational_mx) [1; 1; 0] in
  0 <= 1 # 2 /\
  widen (L := rational_mx) (1 # 2) p (ranking p) (rank_score p 0)
    (S (length p)) 1 = Ok 2%nat /\
  exists j1, widen (L := rational_mx) 0 p (ranking p) (rank_score p 0)
               (S (length p)) 1 = Ok j1 /\
             (j1 <= 2)%nat.
Proof.
  intros p.
  split; [vm_compute; discriminate | ].
  split; [vm_compute; reflexivity | ].
  apply (@widen_monotone rational_mx 0 (1 # 2) [1; 1; 0] 2).
  - vm_compute. discriminate.
  - vm_compute. reflexivity.
Defined.

Lemma sample_nonpositive_cutoff_witness :
  -1 <= 0 /\ (2 <= length [1; 1; 0])%nat /\
  sample (L := rational_mx) (-1) 5 [1; 1; 0] = Ok (2 # 5, 1%nat).
Proof.
  split; [vm_compute; discriminate | ].
  split; [simpl; lia | ].
  destruct (@sample_nonpositive_cutoff rational_mx (-1) 5%Z [1; 1; 0]
              ltac:(vm_compute; discriminate) ltac:(simpl; lia)) as [H _].
  rewrite H. vm_compute. reflexivity.
Defined.

Lemma cache_is_threaded_witness :
  exists ev items g,
    take (L := rational_mx) stub_model stub_clock 2
      (generate_step nat [72; 105]%Z (Some (1 # 2))) = (ev, Ok (items, g)) /\
    model_calls ev = [([72; 105]%Z, None); ([1%Z], Some 1%nat)] /\
    gen_cache g = Some 2%nat /\
    cache_chain stub_model None (model_calls ev) (gen_cache g).
Proof.
  eexists _, _, _.
  split; [vm_compute; reflexivity | ].
  split; [reflexivity | ]. split; [reflexivity | ].
  eapply (@cache_is_threaded rational_mx nat stub_model stub_clock
            [72; 105]%Z (Some (1 # 2)) 2).
  vm_compute. reflexivity.
Defined.

Lemma steps_are_accounted_witness :
  exists ev items g,
    take (L := rational_mx) stub_model stub_clock 2
      (generate_step nat [72; 105]%Z (Some (1 # 2))) = (ev, Ok (items, g)) /\
    map snd items = [[1]; [2]]%Z /\
    sampled_steps (L := rational_mx) stub_model stub_clock (1 # 2) 0
      [72; 105]%Z None items /\
    length items = 2%nat /\
    length (model_calls ev) = 2%nat.
Proof.
  eexists _, _, _.
  split; [vm_compute; reflexivity | ].
  split; [reflexivity | ].
  eapply (@steps_are_accounted rational_mx nat stub_model stub_clock
            [72; 105]%Z (1 # 2) 2).
  vm_compute. reflexivity.
Defined.

Lemma model_failure_propagates_witness :
  exists ev items g,
    take (L := rational_mx) flaky_model stub_clock 1
      (generate_step nat [72; 105]%Z (Some 0)) = (ev, Ok (items, g)) /\
    flaky_model (gen_y g) (gen_cache g) = Raise (ExternalError "shape mismatch") /\
    take (L := rational_mx) flaky_model stub_clock 2
      (generate_step nat [72; 105]%Z (Some 0))
    = (ev ++ [ModelCall (gen_y g) (gen_cache g)],
       Raise (ExternalError "shape mismatch")).
Proof.
  eexists _, _, _.
  split; [vm_compute; reflexivity | ].
  split; [reflexivity | ].
  eapply (@model_failure_propagates rational_mx nat flaky_model stub_clock 1
            (generate_step nat [72; 105]%Z (Some 0))).
  - vm_compute. reflexivity.
  - reflexivity.
Defined.

Lemma stub_model_rows (input : list Z) (cache : option nat)
    (logits : list (list Q)) (cache' : nat) :
  stub_model input cache = Ok (logits, cache') ->
  Forall (fun row => length row = 3%nat) logits.
Proof.
  unfold stub_model. intros H. inversion H; subst.
  apply Forall_forall. intros row Hin. apply in_map_iff in Hin.
  destruct Hin as (_ & <- & _).
  destruct (match cache with Some k => k | None => 0 end =? 1)%nat; reflexivity.
Qed.

Lemma yielded_tokens_in_vocabulary_witness :
  exists ev items g,
    take (L := rational_mx) stub_model stub_clock 3
      (generate_step nat [72; 105]%Z (Some 0)) = (ev, Ok (items, g)) /\
    map snd items = [[1]; [2]; [1]]%Z /\
    Forall (fun it => exists c, snd it = [c] /\ (0 <= c < Z.of_nat 3)%Z) items.
Proof.
  eexists _, _, _.
  split; [vm_compute; reflexivity | ].
  split; [reflexivity | ].
  eapply (@yielded_tokens_in_vocabulary rational_mx nat stub_model stub_clock 3 3
            (generate_step nat [72; 105]%Z (Some 0))).
  - exact stub_model_rows.
  - vm_compute. reflexivity.
Defined.

Lemma generate_propagates_step_failure_witness :
  next (L := rational_mx) stub_model stub_clock
    (generate_step nat (encode stub_tokenizer "Hi") (Some 7))
  = ([ModelCall [72; 105]%Z None; SampleCall 7 [0; 5; 0]], Raise IndexError) /\
  generate (L := rational_mx) stub_model stub_clock stub_tokenizer
    "Hi" (Some 7) (Some 0%nat) true
  = ([ModelCall [72; 105]%Z None; SampleCall 7 [0; 5; 0]], Raise IndexError).
Proof.
  split; [vm_compute; reflexivity | ].
  apply (@generate_propagates_step_failure rational_mx nat stub_model stub_clock
           stub_tokenizer "Hi" (Some 7) (Some 0%nat) true).
  vm_compute. reflexivity.
Defined.

Lemma generate_budget_zero_witness :
  exists ev it g,
    next (L := rational_mx) stub_model stub_clock
      (generate_step nat (encode stub_tokenizer "Hi") (Some 0))
    = (ev, Ok (it, g)) /\
    generate (L := rational_mx) stub_model stub_clock stub_tokenizer
      "Hi" None (Some 0%nat) true
    = (ev, Ok (EmptyString, newline)).
Proof.
  eexists _, _, _.
  split; [vm_compute; reflexivity | ].
  eapply (@generate_budget_zero rational_mx nat stub_model stub_clock
            stub_tokenizer "Hi" None true).
  vm_compute. reflexivity.
Defined.

Module LoaderWitnesses.

Import Loader LoaderExamples MoreLoaderExamples LoaderProperties WeightsProperties.

Lemma load_key_error_witness :
  get_model_path second_world "untagged"
  = ([Exists "untagged"],
     Ok ("untagged"%string,
         {| config_json := ConfigParsed [("quantization", four_bits)]%string;
            safetensors := ["a.safetensors"%string] |})) /\
  snd (load second_world "untagged") = Raise KeyError.
Proof.
  split; [reflexivity | ].
  apply (@load_key_error second_world "untagged" _ _ _ eq_refl).
  - discriminate.
  - intros wf. discriminate.
  - intros l. discriminate.
  - eexists _, _. split; [reflexivity | ]. split; [discriminate | ].
    split; reflexivity.
Defined.

Lemma load_success_witness :
  exists log d,
    get_model_path second_world "phi-4bit" = (log, Ok ("phi-4bit"%string, d)) /\
    snd (load second_world "phi-4bit")
    = Ok {| loaded_arch := phi2;
            loaded_quantization := Some four_bits;
            loaded_weights :=
              [("head", 4%Z); ("norm", 3%Z); ("norm", 2%Z); ("embed", 1%Z)]%string |}.
Proof.
  eexists _, _. split; [reflexivity | ].
  apply (@load_success second_world "phi-4bit" _ _ _ _ eq_refl).
  eexists. split; [reflexivity | ]. split; [discriminate | ].
  repeat split.
Defined.

Lemma load_globs_iff_config_witness :
  exists log d,
    get_model_path second_world "org/llama"
    = (log, Ok ("/cache/org--llama"%string, d)) /\
    In (Glob "/cache/org--llama") (fst (load second_world "org/llama")) /\
    ~ In (Glob "bad-json") (fst (load second_world "bad-json")).
Proof.
  eexists _, _. split; [reflexivity | ]. split.
  - apply (@load_globs_iff_config second_world "org/llama" _ _ _ _ eq_refl).
    split; [reflexivity | eexists; reflexivity].
  - intros Hin.
    apply (@load_globs_iff_config second_world "bad-json" _ _ _ _ eq_refl) in Hin.
    destruct Hin as [_ [cfg Hc]]. discriminate.
Defined.

Lemma load_download_failure_witness :
  local second_world "org/unknown" = None /\
  hub second_world "org/unknown" = Raise (ExternalError "repository not found") /\
  load second_world "org/unknown"
  = ([Exists "org/unknown"; Download "org/unknown"],
     Raise (ExternalError "repository not found")).
Proof.
  split; [reflexivity | ]. split; [reflexivity | ].
  apply (@load_download_failure second_world "org/unknown"); reflexivity.
Defined.

Lemma get_classes_value_error_message_witness :
  _get_classes [("model_type", JNum "7")]%string
  = Raise (ValueError "Model type 7 not supported.") /\
  exists t,
    get "model_type" [("model_type", JNum "7")]%string = Some t /\
    "Model type 7 not supported."%string
    = ("Model type " ++ show t ++ " not supported.")%string.
Proof.
  split; [reflexivity | ].
  apply (@get_classes_value_error_message [("model_type", JNum "7")]%string).
  reflexivity.
Defined.

Lemma merge_weights_last_file_wins_witness :
  NoDup (map fst (two_files "b.safetensors")) /\
  get "norm" (merge_weights two_files (["a.safetensors"] ++ ["b.safetensors"]))%string
  = Some 3%Z /\
  get "embed" (merge_weights two_files (["a.safetensors"] ++ ["b.safetensors"]))%string
  = Some 1%Z.
Proof.
  assert (Hnd : NoDup (map fst (two_files "b.safetensors"))).
  { simpl. repeat constructor; simpl; intuition discriminate. }
  split; [exact Hnd | ]. split.
  - rewrite (@merge_weights_last_file_wins Z two_files
               ["a.safetensors"%string] "b.safetensors" "norm" Hnd).
    reflexivity.
  - rewrite (@merge_weights_last_file_wins Z two_files
               ["a.safetensors"%string] "b.safetensors" "embed" Hnd).
    reflexivity.
Defined.

End LoaderWitnesses.
